(** * RetriBERT (src/transformers/modeling_retribert.py)

    A shallow embedding of [RetriBertModel]: the checkpointed sentence
    embedding, the two role wrappers [embed_questions] / [embed_answers] and
    the bi-directional cross-entropy loss of [forward].

    Tensors hold real numbers ([R]): the development reasons about the exact
    arithmetic the floating-point code approximates.  Python objects that the
    model refers to (the encoders, the projections, the dropout layer) live
    in an object store and are named by their location, so that two
    attributes naming one object are visibly aliases. *)

From Stdlib Require Import Reals Lra Lia ZArith List Permutation.
From stdpp Require Import base list.
Import ListNotations.

(** ** Exceptions, results and the trace of framework calls *)

(** The framework operation that rejected its operands. *)
Inductive TorchOp :=
| op_mm
| op_cross_entropy
| op_cat
| op_encoder.

(** Python exceptions the modelled code can raise.  [ShapeError] stands for
    the framework's complaint about mismatched tensor dimensions. *)
Inductive Error :=
| ShapeError (op : TorchOp)
| IndexError
| ZeroDivisionError
| AttributeError.

Inductive Result (A : Type) :=
| Ok (a : A)
| Raise (e : Error).
Arguments Ok {A} a.
Arguments Raise {A} e.

#[global] Instance Result_ret : MRet Result := fun A a => Ok a.

#[global] Instance Result_bind : MBind Result := fun A B f m =>
  match m with
  | Ok a => f a
  | Raise e => Raise e
  end.

(** [try_map f l]: a comprehension whose body may raise; the first exception
    wins. *)
Fixpoint try_map {A B} (f : A -> Result B) (l : list A) : Result (list B) :=
  match l with
  | [] => Ok []
  | x :: l' => y ← f x; ys ← try_map f l'; Ok (y :: ys)
  end.

(** ** Tensors *)

Abbreviation Vec := (list R).

(** A 2-D float tensor.  The column count is stored, so that a tensor with
    no rows still has a shape, as in the framework. *)
Record Matrix := mkMatrix { ncols : nat; rows : list Vec }.

Definition nrows (M : Matrix) : nat := length (rows M).

Definition has_shape (M : Matrix) (B p : nat) : Prop :=
  nrows M = B /\ ncols M = p /\ Forall (fun r => length r = p) (rows M).

Definition Rsum (l : list R) : R := fold_right Rplus 0%R l.

Definition dot (a b : Vec) : R := Rsum (zip_with Rmult a b).

Definition col (j : nat) (M : Matrix) : Vec :=
  map (fun r => nth j r 0%R) (rows M).

(** [Tensor.t()] on a 2-D tensor. *)
Definition t (M : Matrix) : Matrix :=
  {| ncols := nrows M; rows := map (fun j => col j M) (seq 0 (ncols M)) |}.

(** [torch.mm]: [out[i][j] = sum_k A[i][k] * B[k][j]]; the inner dimensions
    must agree. *)
Definition mm (A B : Matrix) : Result Matrix :=
  if Nat.eqb (ncols A) (nrows B) then
    Ok {| ncols := ncols B;
          rows := map (fun ra => map (fun j => dot ra (col j B)) (seq 0 (ncols B)))
                      (rows A) |}
  else Raise (ShapeError op_mm).

(** [torch.arange(n)]. *)
Definition arange (n : nat) : list nat := seq 0 n.

(** The per-sample loss of [nn.CrossEntropyLoss],
    [loss(x, class) = -x[class] + log (sum_j exp x[j])]; a class outside the
    row is an [IndexError]. *)
Definition cross_entropy_row (x : Vec) (class : nat) : Result R :=
  match nth_error x class with
  | Some xc => Ok (- xc + ln (Rsum (map exp x)))%R
  | None => Raise IndexError
  end.

(** [nn.CrossEntropyLoss(reduction="mean")]: the batch sizes of the input
    and of the target must agree; the result is the sum of the per-sample
    losses divided by the batch size. *)
Definition ce_loss (input : Matrix) (target : list nat) : Result R :=
  if Nat.eqb (nrows input) (length target) then
    losses ← try_map (fun xc => cross_entropy_row (fst xc) (snd xc))
                       (combine (rows input) target);
    Ok (Rsum losses / INR (nrows input))%R
  else Raise (ShapeError op_cross_entropy).

(** [torch.cat(tensors, dim=0)]: needs at least one tensor, and all of one
    width. *)
Definition cat (ts : list Matrix) : Result Matrix :=
  match ts with
  | [] => Raise (ShapeError op_cat)
  | t0 :: _ =>
      if forallb (fun m => Nat.eqb (ncols m) (ncols t0)) ts then
        Ok {| ncols := ncols t0; rows := concat (map rows ts) |}
      else Raise (ShapeError op_cat)
  end.

(** ** Python integers, [math.ceil], [range] and slices *)

(** [math.ceil(b / c)] on integers: true division raises on a zero divisor;
    otherwise the ceiling of the exact quotient (the float quotient of two
    batch-sized integers rounds to the same integer). *)
Definition py_ceil_div (b c : Z) : Result Z :=
  if (c =? 0)%Z then Raise ZeroDivisionError else Ok (- ((- b) / c))%Z.

(** [range(n)]. *)
Definition range (n : Z) : list Z := map Z.of_nat (seq 0 (Z.to_nat n)).

(** A slice bound [i] normalised against a sequence of [len] items. *)
Definition clamp_index (len : nat) (i : Z) : nat :=
  if (i <? 0)%Z then Z.to_nat (Z.max 0 (i + Z.of_nat len))
  else Nat.min (Z.to_nat i) len.

(** [xs[lo:hi]] along the first dimension. *)
Definition py_slice {A} (lo hi : Z) (xs : list A) : list A :=
  let s := clamp_index (length xs) lo in
  let e := clamp_index (length xs) hi in
  take (e - s) (drop s xs).

(** ** Scoring: lines 181-184 of [RetriBertModel.forward] *)

(** The loss computed from the two embedding matrices. *)
Definition score (q_reps a_reps : Matrix) : Result R :=
  compare_scores ← mm q_reps (t a_reps);
  loss_qa ← ce_loss compare_scores (arange (ncols compare_scores));
  loss_aq ← ce_loss (t compare_scores) (arange (nrows compare_scores));
  Ok ((loss_qa + loss_aq) / 2)%R.

(** ** Traced computations *)

(** One sequence of token embeddings / hidden states: [seq_len] vectors. *)
Abbreviation SeqStates := (list Vec).

(** Calls into the encoder that an embedding pass performs, with their
    batch arguments:
    - [EvForward]: the encoder's own forward pass on a whole batch;
    - [EvEmbeddings]: the embedding-lookup layer on a whole batch;
    - [EvCheckpoint]: one [checkpoint.checkpoint(partial_encode, ...)] run
      on a sub-batch. *)
Inductive Event :=
| EvForward (input_ids : list (list Z)) (attention_mask : list (list R))
| EvEmbeddings (input_ids : list (list Z))
| EvCheckpoint (b_embedding_output : list SeqStates) (b_attention_mask : list (list R)).

(** A computation that logs its encoder calls and returns or raises. *)
Record Run (A : Type) := mkRun { trace : list Event; outcome : Result A }.
Arguments mkRun {A} trace outcome.
Arguments trace {A} r.
Arguments outcome {A} r.

#[global] Instance Run_ret : MRet Run := fun A a => mkRun [] (Ok a).

#[global] Instance Run_bind : MBind Run := fun A B f m =>
  match outcome m with
  | Ok a => let r := f a in mkRun (trace m ++ trace r) (outcome r)
  | Raise e => mkRun (trace m) (Raise e)
  end.

Definition emit (ev : Event) : Run unit := mkRun [ev] (Ok ()).

Definition lift {A} (r : Result A) : Run A := mkRun [] r.

(** A [for] loop that appends one result per iteration; an exception ends
    it. *)
Fixpoint for_each {A B} (f : A -> Run B) (l : list A) : Run (list B) :=
  match l with
  | [] => mret []
  | x :: l' => y ← f x; ys ← for_each f l'; mret (y :: ys)
  end.

(** ** The sentence encoder ([BertModel], modeling_bert.py) *)

(** Modelled from the spec: [BertModel] (modeling_bert.py) is missing.  The
    spec describes the encoder as an opaque transformer stack mapping
    (token_ids, attention_mask) to a pooled vector per sequence, with access
    to an embedding-lookup sub-layer and an attention-mask-extension
    utility.  An encoder object is therefore its configuration and four
    per-sequence maps, which its weights determine. *)
Record BertModel := mkBertModel {
  bert_hidden_size : nat;
  bert_num_hidden_layers : nat;
  (* embedding lookup of one sequence: token ids, token type ids *)
  embeddings_seq : list Z -> list Z -> SeqStates;
  (* attention-mask extension of one sequence *)
  extend_mask_seq : list R -> list R;
  (* the transformer stack on one sequence: states, extended mask, head mask *)
  encoder_seq : SeqStates -> list R -> list (option Vec) -> SeqStates;
  (* pooling of one sequence *)
  pooler_seq : SeqStates -> Vec;
}.

(** Modelled from the spec: batch application of a two-argument
    per-sequence map of the missing [BertModel]; the spec's ShapeError when
    the two batches disagree. *)
Definition rowwise2 {A B C} (f : A -> B -> C) (xs : list A) (ys : list B)
  : Result (list C) :=
  if Nat.eqb (length xs) (length ys) then Ok (zip_with f xs ys)
  else Raise (ShapeError op_encoder).

(** [torch.zeros(input_shape, dtype=torch.long)]. *)
Definition zeros_like (input_ids : list (list Z)) : list (list Z) :=
  map (map (fun _ => 0%Z)) input_ids.

(** Modelled from the spec: [sent_encoder.embeddings(input_ids=...,
    token_type_ids=...)] of the missing [BertModel], the embedding-lookup
    sub-layer applied to every sequence of the batch. *)
Definition embeddings (m : BertModel) (input_ids token_type_ids : list (list Z))
  : Run (list SeqStates) :=
  _ ← emit (EvEmbeddings input_ids);
  lift (rowwise2 (embeddings_seq m) input_ids token_type_ids).

(** Modelled from the spec: [sent_encoder.get_extended_attention_mask] of
    the missing [BertModel], the attention-mask-extension utility applied to
    every sequence of the batch. *)
Definition get_extended_attention_mask (m : BertModel) (attention_mask : list (list R))
  : list (list R) :=
  map (extend_mask_seq m) attention_mask.

(** Modelled from the spec: [sent_encoder.encoder(hidden, attention_mask=...,
    head_mask=...)[0]] of the missing [BertModel], the transformer stack
    applied to every sequence of the batch. *)
Definition encoder (m : BertModel) (hidden : list SeqStates)
    (attention_mask : list (list R)) (head_mask : list (option Vec))
  : Result (list SeqStates) :=
  rowwise2 (fun h a => encoder_seq m h a head_mask) hidden attention_mask.

(** Modelled from the spec: [sent_encoder.pooler(sequence_output)] of the
    missing [BertModel]: one pooled vector of width [hidden_size] per
    sequence. *)
Definition pooler (m : BertModel) (sequence_output : list SeqStates) : Matrix :=
  {| ncols := bert_hidden_size m; rows := map (pooler_seq m) sequence_output |}.

(** Modelled from the spec: [sent_encoder(input_ids, attention_mask=...)] of
    the missing [BertModel]: encode(token_ids, attention_mask) ->
    (sequence_output, pooled_output), with zero token types and no head
    mask, failing with ShapeError when the shapes of the two inputs
    disagree. *)
Definition BertModel_call (m : BertModel) (input_ids : list (list Z))
    (attention_mask : list (list R)) : Run (list SeqStates * Matrix) :=
  _ ← emit (EvForward input_ids attention_mask);
  sequence_output ← lift (rowwise2
    (fun i a => encoder_seq m (embeddings_seq m i (map (fun _ => 0%Z) i))
                            (extend_mask_seq m a)
                            (repeat None (bert_num_hidden_layers m)))
    input_ids attention_mask);
  mret (sequence_output, pooler m sequence_output).

(** Modelled from the spec: [checkpoint.checkpoint(fn, a, b)], the
    framework's run_with_recompute(fn, *args) -> result: the value is that of
    [fn a b]; what it changes is which activations are kept for the
    backward pass. *)
Definition checkpoint {A} (fn : list SeqStates -> list (list R) -> Result A)
    (a : list SeqStates) (b : list (list R)) : Run A :=
  _ ← emit (EvCheckpoint a b);
  lift (fn a b).

(** ** [RetriBertModel.embed_sentences_checkpointed] *)

(** The function defined for checkpointing inside
    [embed_sentences_checkpointed]; it closes over [sent_encoder] and
    [head_mask]. *)
Definition partial_encode (sent_encoder : BertModel) (head_mask : list (option Vec))
    (in0 : list SeqStates) (in1 : list (list R)) : Result Matrix :=
  sequence_output ← encoder sent_encoder in0 in1 head_mask;
  mret (pooler sent_encoder sequence_output).

Definition embed_sentences_checkpointed (input_ids : list (list Z))
    (attention_mask : list (list R)) (sent_encoder : BertModel)
    (checkpoint_batch_size : Z) : Run Matrix :=
  if ((checkpoint_batch_size <? 0)%Z
      || (Z.of_nat (length input_ids) <? checkpoint_batch_size)%Z)%bool then
    out ← BertModel_call sent_encoder input_ids attention_mask;
    mret (snd out)
  else
    (* prepare implicit variables *)
    let token_type_ids := zeros_like input_ids in
    let head_mask := repeat None (bert_num_hidden_layers sent_encoder) in
    let extended_attention_mask :=
      get_extended_attention_mask sent_encoder attention_mask in
    (* run embedding layer on everything at once *)
    embedding_output ← embeddings sent_encoder input_ids token_type_ids;
    (* run encoding and pooling on one mini-batch at a time *)
    n ← lift (py_ceil_div (Z.of_nat (length input_ids)) checkpoint_batch_size);
    pooled_output_list ← for_each (fun b =>
      let b_embedding_output :=
        py_slice (b * checkpoint_batch_size) ((b + 1) * checkpoint_batch_size)
                 embedding_output in
      let b_attention_mask :=
        py_slice (b * checkpoint_batch_size) ((b + 1) * checkpoint_batch_size)
                 extended_attention_mask in
      checkpoint (partial_encode sent_encoder head_mask)
                 b_embedding_output b_attention_mask) (range n);
    lift (cat pooled_output_list).

(** ** Modules and the object store *)

(** [nn.Linear]: [weight] has shape (out_features, in_features). *)
Record Linear := mkLinear {
  in_features : nat;
  out_features : nat;
  weight : Matrix;
  bias : option Vec;
}.

(** [nn.Linear(in_features, out_features, bias=use_bias)] with the weight
    rows that initialisation drew; [_init_weights] zeroes a bias. *)
Definition nn_Linear (in_f out_f : nat) (use_bias : bool) (w : list Vec) : Linear :=
  {| in_features := in_f;
     out_features := out_f;
     weight := {| ncols := in_f; rows := w |};
     bias := if use_bias then Some (repeat 0%R out_f) else None |}.

(** Calling a linear layer: [x . weight^T], plus the bias when there is
    one. *)
Definition Linear_call (l : Linear) (x : Matrix) : Result Matrix :=
  y ← mm x (t (weight l));
  Ok (match bias l with
      | None => y
      | Some b => {| ncols := ncols y;
                     rows := map (fun r => zip_with Rplus r b) (rows y) |}
      end).

(** The module objects a model refers to. *)
Inductive Module :=
| MBert (m : BertModel)
| MLinear (l : Linear)
| MDropout (p : R)
| MIdentity.

Definition loc := nat.

(** The object store: the object at location [l] is [h !! l]. *)
Abbreviation Heap := (list Module).

(** Creating an object: a new location, never one in use. *)
Definition alloc (h : Heap) (o : Module) : loc * Heap := (length h, h ++ [o]).

(** Reading an attribute that must hold an encoder / a linear layer. *)
Definition get_bert (h : Heap) (l : loc) : Result BertModel :=
  match h !! l with
  | Some (MBert m) => Ok m
  | _ => Raise AttributeError
  end.

Definition get_linear (h : Heap) (l : loc) : Result Linear :=
  match h !! l with
  | Some (MLinear m) => Ok m
  | _ => Raise AttributeError
  end.

(** The per-sequence maps an encoder's weights determine. *)
Record BertWeights := mkBertWeights {
  w_embeddings : list Z -> list Z -> SeqStates;
  w_extend_mask : list R -> list R;
  w_encoder : SeqStates -> list R -> list (option Vec) -> SeqStates;
  w_pooler : SeqStates -> Vec;
}.

(** In-place update of an encoder's parameters (an optimizer step, a
    [load_state_dict]): the object stays where it is. *)
Definition set_bert_parameters (h : Heap) (l : loc) (w : BertWeights) : Heap :=
  match h !! l with
  | Some (MBert m) =>
      <[l := MBert {| bert_hidden_size := bert_hidden_size m;
                      bert_num_hidden_layers := bert_num_hidden_layers m;
                      embeddings_seq := w_embeddings w;
                      extend_mask_seq := w_extend_mask w;
                      encoder_seq := w_encoder w;
                      pooler_seq := w_pooler w |}]> h
  | _ => h
  end.

(** In-place update of a linear layer's weight. *)
Definition set_linear_weight (h : Heap) (l : loc) (w : list Vec) : Heap :=
  match h !! l with
  | Some (MLinear m) =>
      <[l := MLinear {| in_features := in_features m;
                        out_features := out_features m;
                        weight := {| ncols := in_features m; rows := w |};
                        bias := bias m |}]> h
  | _ => h
  end.

(** ** [RetriBertModel] *)

(** The fields of [RetriBertConfig] that the model reads. *)
Record RetriBertConfig := mkConfig {
  hidden_size : nat;
  projection_dim : nat;
  share_encoders : bool;
  hidden_dropout_prob : R;
  num_hidden_layers : nat;
}.

(** The attributes of a model object; modules are held by reference. *)
Record RetriBertModel := mkRetriBertModel {
  self_projection_dim : nat;
  bert_query : loc;
  bert_doc : option loc;
  dropout : loc;
  project_query : loc;
  project_doc : loc;
}.

(** The values [init_weights] draws for the modules of a new model. *)
Record InitialWeights := mkInitialWeights {
  init_bert_query : BertWeights;
  init_bert_doc : BertWeights;
  init_project_query : list Vec;
  init_project_doc : list Vec;
}.

(** Modelled from the spec: the constructor [BertModel(config)] of the
    missing modeling_bert.py, an encoder of the configured sizes whose maps
    are those of its weights. *)
Definition BertModel_init (config : RetriBertConfig) (w : BertWeights) : BertModel :=
  {| bert_hidden_size := hidden_size config;
     bert_num_hidden_layers := num_hidden_layers config;
     embeddings_seq := w_embeddings w;
     extend_mask_seq := w_extend_mask w;
     encoder_seq := w_encoder w;
     pooler_seq := w_pooler w |}.

(** [RetriBertModel.__init__]: the modules are created in the order of the
    assignments; [bert_doc] is [None] when the encoders are shared. *)
Definition RetriBertModel_init (config : RetriBertConfig) (w : InitialWeights)
    (h : Heap) : RetriBertModel * Heap :=
  let '(l_query, h) := alloc h (MBert (BertModel_init config (init_bert_query w))) in
  let '(l_doc, h) :=
    if share_encoders config then (None, h)
    else let '(l, h) := alloc h (MBert (BertModel_init config (init_bert_doc w))) in
         (Some l, h) in
  let '(l_dropout, h) := alloc h (MDropout (hidden_dropout_prob config)) in
  let '(l_pq, h) :=
    alloc h (MLinear (nn_Linear (hidden_size config) (projection_dim config) false
                                (init_project_query w))) in
  let '(l_pd, h) :=
    alloc h (MLinear (nn_Linear (hidden_size config) (projection_dim config) false
                                (init_project_doc w))) in
  ({| self_projection_dim := projection_dim config;
      bert_query := l_query;
      bert_doc := l_doc;
      dropout := l_dropout;
      project_query := l_pq;
      project_doc := l_pd |}, h).

Definition embed_questions (self : RetriBertModel) (h : Heap)
    (input_ids : list (list Z)) (attention_mask : list (list R))
    (checkpoint_batch_size : Z) : Run Matrix :=
  sent_encoder ← lift (get_bert h (bert_query self));
  q_reps ← embed_sentences_checkpointed input_ids attention_mask sent_encoder
             checkpoint_batch_size;
  project ← lift (get_linear h (project_query self));
  lift (Linear_call project q_reps).

Definition embed_answers (self : RetriBertModel) (h : Heap)
    (input_ids : list (list Z)) (attention_mask : list (list R))
    (checkpoint_batch_size : Z) : Run Matrix :=
  sent_encoder ← lift (get_bert h (match bert_doc self with
                                   | None => bert_query self
                                   | Some l => l
                                   end));
  a_reps ← embed_sentences_checkpointed input_ids attention_mask sent_encoder
             checkpoint_batch_size;
  project ← lift (get_linear h (project_doc self));
  lift (Linear_call project a_reps).

Definition forward (self : RetriBertModel) (h : Heap)
    (input_ids_query : list (list Z)) (attention_mask_query : list (list R))
    (input_ids_doc : list (list Z)) (attention_mask_doc : list (list R))
    (checkpoint_batch_size : Z) : Run R :=
  q_reps ← embed_questions self h input_ids_query attention_mask_query
             checkpoint_batch_size;
  a_reps ← embed_answers self h input_ids_doc attention_mask_doc
             checkpoint_batch_size;
  lift (score q_reps a_reps).

(** ** The loss as the specification words it *)

(** [S = Q . D^T]: [S[i][j]] is the similarity of query [i] and document
    [j]. *)
Definition spec_similarity (Q D : list Vec) : list Vec :=
  map (fun q => map (dot q) D) Q.

(** [S^T] of an [n] by [m] matrix: [S^T[j][i] = S[i][j]]. *)
Definition spec_transpose (n m : nat) (S : list Vec) : list Vec :=
  map (fun j => map (fun i => nth j (nth i S []) 0%R) (seq 0 n)) (seq 0 m).

(** Cross-entropy of one row of logits against its true label: minus the
    logarithm of the softmax probability of the label. *)
Definition spec_cross_entropy (x : Vec) (label : nat) : R :=
  (- ln (exp (nth label x 0) / Rsum (map exp x)))%R.

(** Mean over the rows, the true label of a row being its index. *)
Definition spec_mean_cross_entropy (S : list Vec) : R :=
  (Rsum (map (fun i => spec_cross_entropy (nth i S []) i) (seq 0 (length S)))
   / INR (length S))%R.

(** The arithmetic mean of the two directional losses. *)
Definition spec_score (Q D : Matrix) : R :=
  let S := spec_similarity (rows Q) (rows D) in
  ((spec_mean_cross_entropy S
    + spec_mean_cross_entropy (spec_transpose (nrows Q) (nrows D) S)) / 2)%R.

(** Reordering the rows of a batch: row [k] of the result is row [p[k]] of
    [M] (the framework's [M[p]]). *)
Definition permute_rows (p : list nat) (M : Matrix) : Matrix :=
  {| ncols := ncols M; rows := map (fun i => nth i (rows M) []) p |}.

(** The directional loss over index-aligned lists [xs], [ys] with similarity
    [g]: the mean over the pairs [(x, y)] of
    [- g x y + ln (sum_y' exp (g x y'))]. *)
Definition pair_loss {A B} (g : A -> B -> R) (xs : list A) (ys : list B) : R :=
  (Rsum (map (fun xy => - g (fst xy) (snd xy) + ln (Rsum (map exp (map (g (fst xy)) ys))))
             (combine xs ys))
   / INR (length xs))%R.

(** ** The embedding pass as the specification words it *)

(** The pooled vector of one sequence: embedding lookup with zero token
    types, the transformer stack under the extended mask and no head mask,
    then pooling. *)
Definition pooled_seq (m : BertModel) (i : list Z) (a : list R) : Vec :=
  pooler_seq m
    (encoder_seq m (embeddings_seq m i (map (fun _ => 0%Z) i))
                   (extend_mask_seq m a)
                   (repeat None (bert_num_hidden_layers m))).

(** The full-batch pooled output: one pooled vector per input sequence, in
    the order of the batch. *)
Definition pooled_batch (m : BertModel) (input_ids : list (list Z))
    (attention_mask : list (list R)) : Matrix :=
  {| ncols := bert_hidden_size m;
     rows := zip_with (pooled_seq m) input_ids attention_mask |}.

(** The computation without checkpointing: the whole batch in one pass
    through the encoder. *)
Definition single_pass (input_ids : list (list Z)) (attention_mask : list (list R))
    (sent_encoder : BertModel) : Run Matrix :=
  out ← BertModel_call sent_encoder input_ids attention_mask;
  mret (snd out).

(** [ceil(b / c)] on naturals. *)
Definition ceil_div (b c : nat) : nat := (b + c - 1) / c.

(** The contiguous sub-batches of size [c] of a batch, in index order:
    sub-batch [b] holds the rows [b * c], ..., [(b + 1) * c - 1] that
    exist. *)
Definition sub_batches {A} (c : nat) (xs : list A) : list (list A) :=
  map (fun b => take c (drop (b * c) xs)) (seq 0 (ceil_div (length xs) c)).

(** ** The object graph of a constructed model *)

(** What [__init__] establishes between a model and the store: every
    attribute names the module created for it, and distinct modules sit at
    distinct locations; [bert_doc] is [None] exactly when the encoders are
    shared. *)
Definition linked (config : RetriBertConfig) (w : InitialWeights)
    (self : RetriBertModel) (h : Heap) : Prop :=
  h !! bert_query self = Some (MBert (BertModel_init config (init_bert_query w)))
  /\ match bert_doc self with
     | None => share_encoders config = true
     | Some l =>
         share_encoders config = false
         /\ h !! l = Some (MBert (BertModel_init config (init_bert_doc w)))
         /\ l <> bert_query self /\ l <> dropout self
         /\ l <> project_query self /\ l <> project_doc self
     end
  /\ h !! dropout self = Some (MDropout (hidden_dropout_prob config))
  /\ h !! project_query self =
       Some (MLinear (nn_Linear (hidden_size config) (projection_dim config) false
                                (init_project_query w)))
  /\ h !! project_doc self =
       Some (MLinear (nn_Linear (hidden_size config) (projection_dim config) false
                                (init_project_doc w)))
  /\ bert_query self <> dropout self
  /\ bert_query self <> project_query self
  /\ bert_query self <> project_doc self
  /\ dropout self <> project_query self
  /\ dropout self <> project_doc self
  /\ project_query self <> project_doc self.

(** The encoder that [embed_answers] selects:
    [self.bert_query if self.bert_doc is None else self.bert_doc]. *)
Definition doc_encoder_loc (self : RetriBertModel) : loc :=
  match bert_doc self with
  | None => bert_query self
  | Some l => l
  end.

(** ** Example data *)

(** A small encoder: a token is embedded as the one-dimensional vector of
    its id, the stack is the identity, and pooling takes the first state. *)
Definition toy_weights : BertWeights :=
  {| w_embeddings := fun i _ => map (fun z => [IZR z]) i;
     w_extend_mask := fun a => a;
     w_encoder := fun h _ _ => h;
     w_pooler := fun h => match h with x :: _ => x | [] => [0%R] end |}.

(** Another setting of the parameters: pooling is constant. *)
Definition toy_weights' : BertWeights :=
  {| w_embeddings := fun i _ => map (fun z => [IZR z]) i;
     w_extend_mask := fun a => a;
     w_encoder := fun h _ _ => h;
     w_pooler := fun _ => [7%R] |}.

Definition toy_config (share : bool) : RetriBertConfig :=
  {| hidden_size := 1;
     projection_dim := 1;
     share_encoders := share;
     hidden_dropout_prob := (1 / 10)%R;
     num_hidden_layers := 1 |}.

Definition toy_bert : BertModel := BertModel_init (toy_config true) toy_weights.

Definition toy_init : InitialWeights :=
  {| init_bert_query := toy_weights;
     init_bert_doc := toy_weights;
     init_project_query := [[1%R]];
     init_project_doc := [[2%R]] |}.

(** A batch of three sequences of one token each, nothing masked. *)
Definition toy_ids : list (list Z) := [[1%Z]; [2%Z]; [3%Z]].
Definition toy_mask : list (list R) := [[1%R]; [1%R]; [1%R]].

(** ** Outcomes *)

(** Whether a computation returned rather than raised. *)
Definition succeeds {A} (r : Result A) : bool :=
  match r with
  | Ok _ => true
  | Raise _ => false
  end.

(** ** A bias-free projection in closed form *)

(** Row [i] of the result holds the dot products of row [i] of [x] with the
    weight rows [w]. *)
Definition project_rows (w : list Vec) (x : Matrix) : Matrix :=
  {| ncols := length w; rows := map (fun r => map (dot r) w) (rows x) |}.

(** The parameters of the encoder that serves the document role. *)
Definition doc_weights (config : RetriBertConfig) (w : InitialWeights) : BertWeights :=
  if share_encoders config then init_bert_query w else init_bert_doc w.

(** ** Weight initialisation: [RetriBertPreTrainedModel._init_weights] *)

(** The modules that [self.apply(self._init_weights)] visits, by the classes
    that [_init_weights] tells apart. *)
Inductive Submodule :=
| SubLinear (l : Linear)
| SubEmbedding (weight : Matrix)
| SubLayerNorm (weight bias : Vec)
| SubDropout (p : R)
| SubContainer.

(** [tensor.normal_(mean, std)]: every entry is overwritten by a fresh draw,
    [mean + std * z] for a standard normal [z]; the draws of one call are
    given by [noise], indexed by the position of the entry. *)
Definition normal_ (mean std : R) (noise : nat -> nat -> R) (w : Matrix) : Matrix :=
  {| ncols := ncols w;
     rows := imap (fun i r => imap (fun j _ => (mean + std * noise i j)%R) r) (rows w) |}.

(** [tensor.fill_(v)] and [tensor.zero_()] on a vector. *)
Definition fill_ (v : R) (x : Vec) : Vec := map (fun _ => v) x.

Definition zero_ (x : Vec) : Vec := fill_ 0%R x.

Definition _init_weights (initializer_range : R) (noise : nat -> nat -> R)
    (module : Submodule) : Submodule :=
  let module :=
    match module with
    | SubLinear l =>
        SubLinear {| in_features := in_features l;
                     out_features := out_features l;
                     weight := normal_ 0 initializer_range noise (weight l);
                     bias := bias l |}
    | SubEmbedding w => SubEmbedding (normal_ 0 initializer_range noise w)
    | SubLayerNorm w b => SubLayerNorm (fill_ 1 w) (zero_ b)
    | _ => module
    end in
  match module with
  | SubLinear l =>
      match bias l with
      | Some b =>
          SubLinear {| in_features := in_features l;
                       out_features := out_features l;
                       weight := weight l;
                       bias := Some (zero_ b) |}
      | None => module
      end
  | _ => module
  end.

(** A tensor with its values erased: what is left is its shape. *)
Definition erase_matrix (w : Matrix) : Matrix :=
  {| ncols := ncols w; rows := map zero_ (rows w) |}.

(** A module with the values of its parameters erased: its class, its
    sizes, the shapes of its parameters and whether it has a bias. *)
Definition erase_values (module : Submodule) : Submodule :=
  match module with
  | SubLinear l =>
      SubLinear {| in_features := in_features l;
                   out_features := out_features l;
                   weight := erase_matrix (weight l);
                   bias := option_map zero_ (bias l) |}
  | SubEmbedding w => SubEmbedding (erase_matrix w)
  | SubLayerNorm w b => SubLayerNorm (zero_ w) (zero_ b)
  | SubDropout p => SubDropout p
  | SubContainer => SubContainer
  end.

(** * Properties *)

(** ** Lists, sums and indices *)

Arguments Rsum : simpl never.
Arguments dot : simpl never.

Lemma Rsum_nil : Rsum [] = 0%R.
Proof. reflexivity. Qed.

Lemma map_nth_seq {A B} (f : A -> B) (l : list A) (d : A) :
  map (fun j => f (nth j l d)) (seq 0 (length l)) = map f l.
Proof.
  induction l as [|x l IH]; simpl; [reflexivity|].
  f_equal. rewrite <- seq_shift, map_map. exact IH.
Qed.

Lemma nth_seq_id (r : Vec) :
  map (fun k => nth k r 0%R) (seq 0 (length r)) = r.
Proof.
  rewrite (map_nth_seq (fun x => x) r 0%R). apply map_id.
Qed.

Lemma nth_map_lt {A B} (f : A -> B) (l : list A) (j : nat) (d : A) (d' : B) :
  j < length l -> nth j (map f l) d' = f (nth j l d).
Proof.
  intros Hj. rewrite (nth_indep _ d' (f d)) by (rewrite length_map; exact Hj).
  apply map_nth.
Qed.

Lemma Forall_nth_length (l : list Vec) (p j : nat) :
  Forall (fun r => length r = p) l -> j < length l -> length (nth j l []) = p.
Proof.
  intros HF Hj. rewrite List.Forall_forall in HF. apply HF. apply nth_In, Hj.
Qed.

Lemma Rsum_cons (x : R) (l : list R) : Rsum (x :: l) = (x + Rsum l)%R.
Proof. reflexivity. Qed.

Lemma Rsum_app (l1 l2 : list R) : Rsum (l1 ++ l2) = (Rsum l1 + Rsum l2)%R.
Proof.
  induction l1 as [|x l1 IH]; simpl.
  - rewrite Rsum_nil. lra.
  - rewrite !Rsum_cons, IH. lra.
Qed.

Lemma Rsum_Permutation (l l' : list R) : Permutation l l' -> Rsum l = Rsum l'.
Proof.
  induction 1 as [|x l l' _ IH|x y l|l l' l'' _ IH1 _ IH2].
  - reflexivity.
  - rewrite !Rsum_cons, IH. reflexivity.
  - rewrite !Rsum_cons. lra.
  - congruence.
Qed.

Lemma Rsum_exp_pos (x : Vec) : x <> [] -> (0 < Rsum (map exp x))%R.
Proof.
  destruct x as [|a x]; [congruence|]. intros _. simpl.
  assert (H : (0 <= Rsum (map exp x))%R).
  { induction x as [|b x IH]; simpl; [rewrite Rsum_nil; lra|].
    rewrite Rsum_cons. pose proof (exp_pos b). lra. }
  rewrite Rsum_cons. pose proof (exp_pos a). lra.
Qed.

Lemma dot_comm (a b : Vec) : dot a b = dot b a.
Proof.
  unfold dot. revert b.
  induction a as [|x a IH]; intros [|y b]; simpl; try reflexivity.
  rewrite !Rsum_cons, IH. lra.
Qed.

Lemma map_fst_combine {A B} (l1 : list A) (l2 : list B) :
  length l1 = length l2 -> map fst (combine l1 l2) = l1.
Proof.
  revert l2. induction l1 as [|x l1 IH]; intros [|y l2] H; simpl in *;
    try discriminate; [reflexivity|]. f_equal. apply IH. lia.
Qed.

Lemma map_snd_combine {A B} (l1 : list A) (l2 : list B) :
  length l1 = length l2 -> map snd (combine l1 l2) = l2.
Proof.
  revert l2. induction l1 as [|x l1 IH]; intros [|y l2] H; simpl in *;
    try discriminate; [reflexivity|]. f_equal. apply IH. lia.
Qed.

Lemma combine_nth_seq {A B} (l1 : list A) (l2 : list B) (d1 : A) (d2 : B) :
  length l1 = length l2 ->
  combine l1 l2 = map (fun i => (nth i l1 d1, nth i l2 d2)) (seq 0 (length l1)).
Proof.
  revert l2. induction l1 as [|x l1 IH]; intros [|y l2] H; simpl in *;
    try discriminate; [reflexivity|].
  f_equal. rewrite <- seq_shift, map_map. apply IH. lia.
Qed.

(** ** The framework's matrix operations *)

Lemma has_shape_nth (M : Matrix) (B p j : nat) :
  has_shape M B p -> j < B -> length (nth j (rows M) []) = p.
Proof.
  intros (HB & _ & HF) Hj. apply Forall_nth_length; [exact HF|].
  unfold nrows in HB. lia.
Qed.

Lemma col_t (D : Matrix) (B p j : nat) :
  has_shape D B p -> j < B -> col j (t D) = nth j (rows D) [].
Proof.
  intros HD Hj. pose proof (has_shape_nth D B p j HD Hj) as Hlen.
  destruct HD as (HB & Hp & HF). unfold nrows in HB.
  unfold col, t; simpl. rewrite map_map.
  transitivity (map (fun k => nth k (nth j (rows D) []) 0%R)
                    (seq 0 (length (nth j (rows D) []))));
    [|apply nth_seq_id].
  rewrite Hlen, Hp. apply map_ext. intros k. unfold col.
  apply (nth_map_lt (fun r => nth k r 0%R)). lia.
Qed.

Lemma mm_t (Q D : Matrix) (B p : nat) :
  has_shape D B p ->
  mm Q (t D) =
  if Nat.eqb (ncols Q) p then
    Ok {| ncols := B; rows := map (fun q => map (dot q) (rows D)) (rows Q) |}
  else Raise (ShapeError op_mm).
Proof.
  intros HD. pose proof HD as (HB & Hp & HF). unfold nrows in HB.
  unfold mm. replace (nrows (t D)) with p
    by (unfold nrows, t; simpl; rewrite length_map, length_seq; lia).
  destruct (Nat.eqb (ncols Q) p); [|reflexivity].
  f_equal. unfold t at 1; simpl. unfold nrows. rewrite HB. f_equal.
  apply map_ext. intros q.
  rewrite <- (map_nth_seq (dot q) (rows D) []), HB.
  apply map_ext_in. intros j Hj. apply in_seq in Hj.
  f_equal. apply (col_t D B p); [exact HD|lia].
Qed.

Lemma t_outer {A B} (g : A -> B -> R) (xs : list A) (ys : list B) :
  t {| ncols := length ys; rows := map (fun x => map (g x) ys) xs |} =
  {| ncols := length xs; rows := map (fun y => map (fun x => g x y) xs) ys |}.
Proof.
  unfold t, nrows, col; simpl. rewrite length_map. f_equal.
  induction ys as [|y ys IH]; simpl; [reflexivity|]. f_equal.
  - rewrite map_map. reflexivity.
  - rewrite <- seq_shift, map_map. rewrite <- IH.
    apply map_ext. intros j. rewrite !map_map. reflexivity.
Qed.

(** ** The cross-entropy of a matrix of pairwise similarities *)

Lemma cross_entropy_row_map {B} (f : B -> R) (ys : list B) (k : nat) (y : B) :
  nth_error ys k = Some y ->
  cross_entropy_row (map f ys) k = Ok (- f y + ln (Rsum (map exp (map f ys))))%R.
Proof.
  intros H. unfold cross_entropy_row. rewrite nth_error_map, H. reflexivity.
Qed.

Lemma try_map_cross_entropy_outer {A B} (g : A -> B -> R) (ys : list B) :
  forall (xs' : list A) (ys' : list B) (k : nat),
    length xs' = length ys' ->
    (forall i, i < length xs' -> nth_error ys (k + i) = nth_error ys' i) ->
    try_map (fun xc => cross_entropy_row (fst xc) (snd xc))
            (combine (map (fun x => map (g x) ys) xs') (seq k (length xs'))) =
    Ok (map (fun xy => (- g (fst xy) (snd xy)
                        + ln (Rsum (map exp (map (g (fst xy)) ys))))%R)
            (combine xs' ys')).
Proof.
  induction xs' as [|x xs' IH]; intros [|y ys'] k Hlen Hnth; simpl in *;
    try discriminate; [reflexivity|].
  specialize (Hnth 0 ltac:(lia)) as H0. rewrite Nat.add_0_r in H0. simpl in H0.
  rewrite (cross_entropy_row_map (g x) ys k y H0). simpl.
  rewrite (IH ys' (S k)).
  - reflexivity.
  - lia.
  - intros i Hi. specialize (Hnth (S i) ltac:(lia)). simpl in Hnth.
    rewrite <- Hnth. f_equal. lia.
Qed.

Lemma ce_loss_outer {A B} (g : A -> B -> R) (xs : list A) (ys : list B) (n : nat) :
  length xs = length ys ->
  ce_loss {| ncols := n; rows := map (fun x => map (g x) ys) xs |}
          (arange (length xs)) = Ok (pair_loss g xs ys).
Proof.
  intros Hlen. unfold ce_loss, arange, nrows; simpl.
  rewrite length_map, length_seq, Nat.eqb_refl.
  rewrite (try_map_cross_entropy_outer g ys xs ys 0 Hlen) by reflexivity.
  reflexivity.
Qed.

(** The loss of [forward] in terms of the index-aligned pairs of rows. *)
Lemma score_pairs (Q D : Matrix) (B p : nat) :
  has_shape Q B p -> has_shape D B p ->
  score Q D = Ok ((pair_loss dot (rows Q) (rows D)
                   + pair_loss (fun d q => dot q d) (rows D) (rows Q)) / 2)%R.
Proof.
  intros HQ HD. unfold score. rewrite (mm_t Q D B p HD).
  destruct HQ as (HQB & HQp & _). destruct HD as (HDB & _ & _).
  unfold nrows in *. rewrite HQp, Nat.eqb_refl. simpl.
  unfold nrows; simpl. rewrite length_map.
  assert (Hlen : length (rows Q) = length (rows D)) by lia.
  replace B with (length (rows Q)) at 2 by lia.
  rewrite (ce_loss_outer dot (rows Q) (rows D) B Hlen). simpl.
  replace B with (length (rows D)) by lia.
  rewrite (t_outer dot (rows Q) (rows D)).
  replace (length (rows Q)) with (length (rows D)) at 2 by lia.
  rewrite (ce_loss_outer (fun d q => dot q d) (rows D) (rows Q)
             (length (rows Q)) (eq_sym Hlen)).
  reflexivity.
Qed.

(** ** The specification's wording against the pair form *)

Lemma spec_cross_entropy_eq (x : Vec) (label : nat) :
  x <> [] ->
  spec_cross_entropy x label = (- nth label x 0 + ln (Rsum (map exp x)))%R.
Proof.
  intros Hx. unfold spec_cross_entropy, Rdiv.
  pose proof (Rsum_exp_pos x Hx) as Hpos.
  rewrite ln_mult by (apply exp_pos || apply Rinv_0_lt_compat, Hpos).
  rewrite ln_exp, ln_Rinv by exact Hpos. lra.
Qed.

Lemma spec_mean_cross_entropy_outer (g : Vec -> Vec -> R) (xs ys : list Vec) :
  length xs = length ys ->
  spec_mean_cross_entropy (map (fun x => map (g x) ys) xs) = pair_loss g xs ys.
Proof.
  intros Hlen. unfold spec_mean_cross_entropy, pair_loss.
  rewrite length_map. f_equal. f_equal.
  rewrite (combine_nth_seq xs ys [] [] Hlen), map_map.
  apply map_ext_in. intros i Hi. apply in_seq in Hi. simpl.
  rewrite (nth_map_lt (fun x => map (g x) ys) xs i [] []) by lia.
  rewrite spec_cross_entropy_eq.
  - rewrite (nth_map_lt (g (nth i xs [])) ys i [] 0%R) by lia. reflexivity.
  - destruct ys; simpl in *; [lia|discriminate].
Qed.

Lemma spec_transpose_similarity (Q D : list Vec) :
  spec_transpose (length Q) (length D) (spec_similarity Q D) =
  map (fun d => map (fun q => dot q d) Q) D.
Proof.
  unfold spec_transpose, spec_similarity.
  rewrite <- (map_nth_seq (fun d => map (fun q => dot q d) Q) D []).
  apply map_ext_in. intros j Hj. apply in_seq in Hj.
  rewrite <- (map_nth_seq (fun q => dot q (nth j D [])) Q []).
  apply map_ext_in. intros i Hi. apply in_seq in Hi.
  rewrite (nth_map_lt (fun q => map (dot q) D) Q i [] []) by lia.
  apply (nth_map_lt (dot (nth i Q [])) D j [] 0%R). lia.
Qed.

Lemma spec_score_pairs (Q D : Matrix) :
  nrows Q = nrows D ->
  spec_score Q D = ((pair_loss dot (rows Q) (rows D)
                     + pair_loss (fun d q => dot q d) (rows D) (rows Q)) / 2)%R.
Proof.
  intros Hlen. unfold nrows in Hlen. unfold spec_score, nrows.
  rewrite spec_transpose_similarity. unfold spec_similarity.
  rewrite (spec_mean_cross_entropy_outer dot (rows Q) (rows D) Hlen).
  rewrite (spec_mean_cross_entropy_outer (fun d q => dot q d) (rows D) (rows Q)
             (eq_sym Hlen)).
  reflexivity.
Qed.

(** ** Symmetry and reordering of the pair form *)

Lemma pair_loss_ext {A B} (g g' : A -> B -> R) (xs : list A) (ys : list B) :
  (forall x y, g x y = g' x y) -> pair_loss g xs ys = pair_loss g' xs ys.
Proof.
  intros Hg. unfold pair_loss. f_equal. f_equal.
  apply map_ext. intros [x y]; simpl. rewrite Hg. do 4 f_equal.
  apply map_ext. intros y'. apply Hg.
Qed.

Lemma pair_loss_Permutation {A B} (g : A -> B -> R)
    (xs xs' : list A) (ys ys' : list B) :
  length xs = length ys -> length xs' = length ys' ->
  Permutation (combine xs ys) (combine xs' ys') ->
  pair_loss g xs ys = pair_loss g xs' ys'.
Proof.
  intros Hlen Hlen' HP.
  assert (Hxs : Permutation xs xs').
  { rewrite <- (map_fst_combine xs ys Hlen), <- (map_fst_combine xs' ys' Hlen').
    apply Permutation_map, HP. }
  assert (Hys : Permutation ys ys').
  { rewrite <- (map_snd_combine xs ys Hlen), <- (map_snd_combine xs' ys' Hlen').
    apply Permutation_map, HP. }
  unfold pair_loss. rewrite (Permutation_length Hxs). f_equal.
  transitivity
    (Rsum (map (fun xy => (- g (fst xy) (snd xy)
                           + ln (Rsum (map exp (map (g (fst xy)) ys))))%R)
               (combine xs' ys'))).
  - apply Rsum_Permutation, Permutation_map, HP.
  - f_equal. apply map_ext. intros [x y]; simpl. do 2 f_equal.
    apply Rsum_Permutation. do 2 apply Permutation_map. exact Hys.
Qed.

Lemma combine_map_same {A B C} (f : A -> B) (g : A -> C) (l : list A) :
  combine (map f l) (map g l) = map (fun i => (f i, g i)) l.
Proof.
  induction l as [|x l IH]; simpl; [reflexivity|]. f_equal. exact IH.
Qed.

Lemma permute_rows_shape (p : list nat) (M : Matrix) (B d : nat) :
  has_shape M B d -> Permutation p (seq 0 B) ->
  has_shape (permute_rows p M) B d.
Proof.
  intros HM HP. pose proof HM as (HB & Hd & HF).
  unfold has_shape, permute_rows, nrows; simpl. repeat split.
  - rewrite length_map, (Permutation_length HP). apply length_seq.
  - exact Hd.
  - apply List.Forall_forall. intros r Hr. apply in_map_iff in Hr.
    destruct Hr as (i & <- & Hi).
    apply (Permutation_in _ HP), in_seq in Hi.
    apply (has_shape_nth M B d i HM). lia.
Qed.

Lemma permute_rows_combine (p : list nat) (Q D : list Vec) (B : nat) :
  length Q = B -> length D = B -> Permutation p (seq 0 B) ->
  Permutation (combine (map (fun i => nth i Q []) p) (map (fun i => nth i D []) p))
              (combine Q D).
Proof.
  intros HQ HD HP. rewrite combine_map_same.
  rewrite (combine_nth_seq Q D [] []) by lia. rewrite HQ.
  apply Permutation_map, HP.
Qed.

(** ** Results of traced computations *)

Lemma outcome_bind {A B} (m : Run A) (f : A -> Run B) :
  outcome (m ≫= f) = outcome m ≫= (fun a => outcome (f a)).
Proof.
  unfold mbind, Run_bind, Result_bind. destruct (outcome m); reflexivity.
Qed.

Lemma outcome_lift {A} (r : Result A) : outcome (lift r) = r.
Proof. reflexivity. Qed.

(** The value of [forward] is [score] applied to the two embeddings; an
    exception of either embedding, or of [score], is the outcome of
    [forward]. *)
Lemma forward_outcome (self : RetriBertModel) (h : Heap)
    (iq : list (list Z)) (mq : list (list R))
    (id : list (list Z)) (md : list (list R)) (c : Z) :
  outcome (forward self h iq mq id md c) =
  (q_reps ← outcome (embed_questions self h iq mq c);
   a_reps ← outcome (embed_answers self h id md c);
   score q_reps a_reps).
Proof.
  unfold forward. rewrite outcome_bind.
  destruct (outcome (embed_questions self h iq mq c)); [|reflexivity].
  simpl. rewrite outcome_bind.
  destruct (outcome (embed_answers self h id md c)); reflexivity.
Qed.

(** ** The loss: claims on [score] *)

(** C2. For index-aligned embedding matrices of shape (batch,
    projection_dim), the loss computed in [forward] is the arithmetic mean
    of the mean cross-entropy over the rows of [S = Q . D^T] and the mean
    cross-entropy over the rows of [S^T], the true label of a row being its
    index. *)
Theorem C2_loss_is_mean_of_directional_losses (Q D : Matrix) (B p : nat) :
  has_shape Q B p -> has_shape D B p ->
  score Q D = Ok (spec_score Q D).
Proof.
  intros HQ HD. rewrite (score_pairs Q D B p HQ HD).
  rewrite spec_score_pairs; [reflexivity|].
  destruct HQ as (-> & _). destruct HD as (-> & _). reflexivity.
Qed.

(** The scenario of the specification: two queries and two documents of
    dimension one. *)
Lemma C2_witness :
  score {| ncols := 1; rows := [[1%R]; [0%R]] |}
        {| ncols := 1; rows := [[1%R]; [0%R]] |} =
  Ok (spec_score {| ncols := 1; rows := [[1%R]; [0%R]] |}
                 {| ncols := 1; rows := [[1%R]; [0%R]] |}).
Proof.
  apply (C2_loss_is_mean_of_directional_losses _ _ 2 1);
    (split; [reflexivity|split; [reflexivity|repeat constructor]]).
Defined.

(** The scenario worked out in the specification: [S = [[1, 0], [0, 0]]];
    row 0 contributes [-1 + ln (e + 1)], the degenerate row 1 contributes
    [ln 2], and both directions agree. *)
Example score_two_by_one_scenario :
  score {| ncols := 1; rows := [[1%R]; [0%R]] |}
        {| ncols := 1; rows := [[1%R]; [0%R]] |} =
  Ok ((- 1 + ln (exp 1 + 1) + ln 2) / 2)%R.
Proof.
  rewrite (score_pairs _ _ 2 1);
    [|split; [reflexivity|split; [reflexivity|repeat constructor]]..].
  f_equal. unfold pair_loss, dot; simpl.
  rewrite !Rsum_cons, !Rsum_nil.
  replace (1 * 1 + 0)%R with 1%R by lra.
  replace (1 * 0 + 0)%R with 0%R by lra.
  replace (0 * 1 + 0)%R with 0%R by lra.
  replace (0 * 0 + 0)%R with 0%R by lra.
  rewrite exp_0.
  replace (exp 1 + (1 + 0))%R with (exp 1 + 1)%R by lra.
  replace (1 + (1 + 0))%R with 2%R by lra.
  lra.
Qed.

(** C4. Swapping the roles of two equal-sized, index-aligned embedding
    batches leaves the loss unchanged. *)
Theorem C4_score_symmetric (Q D : Matrix) (B p : nat) :
  has_shape Q B p -> has_shape D B p ->
  score Q D = score D Q.
Proof.
  intros HQ HD.
  rewrite (score_pairs Q D B p HQ HD), (score_pairs D Q B p HD HQ).
  f_equal.
  rewrite (pair_loss_ext dot (fun d q => dot q d) (rows D) (rows Q))
    by (intros; apply dot_comm).
  rewrite (pair_loss_ext (fun q d => dot d q) dot (rows Q) (rows D))
    by (intros; apply dot_comm).
  lra.
Qed.

Lemma C4_witness :
  score {| ncols := 2; rows := [[1%R; 2%R]; [0%R; 3%R]] |}
        {| ncols := 2; rows := [[4%R; 0%R]; [1%R; 1%R]] |} =
  score {| ncols := 2; rows := [[4%R; 0%R]; [1%R; 1%R]] |}
        {| ncols := 2; rows := [[1%R; 2%R]; [0%R; 3%R]] |}.
Proof.
  apply (C4_score_symmetric _ _ 2 2);
    (split; [reflexivity|split; [reflexivity|repeat constructor]]).
Defined.

(** C5. Reordering the rows of the query batch and the rows of the document
    batch by one and the same permutation of the row indices leaves the loss
    unchanged. *)
Theorem C5_score_invariant_under_joint_permutation
    (Q D : Matrix) (B d : nat) (p : list nat) :
  has_shape Q B d -> has_shape D B d -> Permutation p (seq 0 B) ->
  score (permute_rows p Q) (permute_rows p D) = score Q D.
Proof.
  intros HQ HD HP.
  rewrite (score_pairs _ _ B d (permute_rows_shape p Q B d HQ HP)
                               (permute_rows_shape p D B d HD HP)).
  rewrite (score_pairs Q D B d HQ HD).
  destruct HQ as (HQB & _). destruct HD as (HDB & _). unfold nrows in *.
  assert (Hp : length p = B)
    by (rewrite (Permutation_length HP); apply length_seq).
  unfold permute_rows; simpl.
  rewrite (pair_loss_Permutation dot _ (rows Q) _ (rows D));
    [|rewrite !length_map; reflexivity|lia
     |apply (permute_rows_combine p _ _ B HQB HDB HP)].
  rewrite (pair_loss_Permutation (fun d q => dot q d) _ (rows D) _ (rows Q));
    [reflexivity|rewrite !length_map; reflexivity|lia
     |apply (permute_rows_combine p _ _ B HDB HQB HP)].
Qed.

Lemma C5_witness :
  score (permute_rows [1; 0] {| ncols := 1; rows := [[1%R]; [2%R]] |})
        (permute_rows [1; 0] {| ncols := 1; rows := [[3%R]; [5%R]] |}) =
  score {| ncols := 1; rows := [[1%R]; [2%R]] |}
        {| ncols := 1; rows := [[3%R]; [5%R]] |}.
Proof.
  apply (C5_score_invariant_under_joint_permutation _ _ 2 1).
  - split; [reflexivity|split; [reflexivity|repeat constructor]].
  - split; [reflexivity|split; [reflexivity|repeat constructor]].
  - apply perm_swap.
Defined.

Lemma nrows_t (M : Matrix) : nrows (t M) = ncols M.
Proof. unfold nrows, t; simpl. rewrite length_map. apply length_seq. Qed.

Lemma ncols_t (M : Matrix) : ncols (t M) = nrows M.
Proof. reflexivity. Qed.

Lemma mm_inv (A B M : Matrix) :
  mm A B = Ok M -> ncols A = nrows B /\ nrows M = nrows A /\ ncols M = ncols B.
Proof.
  unfold mm. destruct (Nat.eqb (ncols A) (nrows B)) eqn:E; [|discriminate].
  intros [= <-]. apply Nat.eqb_eq in E. unfold nrows; simpl.
  rewrite length_map. auto.
Qed.

Lemma mm_raise (A B : Matrix) :
  ncols A <> nrows B -> mm A B = Raise (ShapeError op_mm).
Proof.
  intros H. unfold mm. apply Nat.eqb_neq in H. rewrite H. reflexivity.
Qed.

Lemma ce_loss_raise (input : Matrix) (target : list nat) :
  nrows input <> length target ->
  ce_loss input target = Raise (ShapeError op_cross_entropy).
Proof.
  intros H. unfold ce_loss. apply Nat.eqb_neq in H. rewrite H. reflexivity.
Qed.

(** [score] has no check of its own: what it rejects is what [torch.mm] and
    the loss reject. *)
Lemma score_widths_disagree (Q D : Matrix) :
  ncols Q <> ncols D -> score Q D = Raise (ShapeError op_mm).
Proof.
  intros Hc. unfold score. rewrite mm_raise; [reflexivity|].
  rewrite nrows_t. exact Hc.
Qed.

Lemma score_heights_disagree (Q D : Matrix) :
  ncols Q = ncols D -> nrows Q <> nrows D ->
  score Q D = Raise (ShapeError op_cross_entropy).
Proof.
  intros Hc Hr. unfold score.
  destruct (mm Q (t D)) as [S|e] eqn:E.
  - apply mm_inv in E. destruct E as (_ & HSr & HSc). rewrite ncols_t in HSc.
    simpl. rewrite (ce_loss_raise S (arange (ncols S))); [reflexivity|].
    unfold arange. rewrite length_seq. lia.
  - unfold mm in E. rewrite nrows_t, Hc, Nat.eqb_refl in E. discriminate.
Qed.

(** C7, as amended.  [score] raises a shape error whenever the two
    embedding matrices disagree in their row counts or in their column
    counts; no loss value is returned then. *)
Theorem C7_score_rejects_disagreeing_shapes (Q D : Matrix) :
  nrows Q <> nrows D \/ ncols Q <> ncols D ->
  exists op, score Q D = Raise (ShapeError op).
Proof.
  intros H. destruct (Nat.eq_dec (ncols Q) (ncols D)) as [Hc|Hc].
  - destruct H as [Hr|Hc']; [|contradiction].
    exists op_cross_entropy. apply score_heights_disagree; assumption.
  - exists op_mm. apply score_widths_disagree, Hc.
Qed.

Lemma C7_witness :
  exists op,
    score {| ncols := 1; rows := [[1%R]; [0%R]] |}
          {| ncols := 1; rows := [[1%R]] |} = Raise (ShapeError op).
Proof.
  apply (C7_score_rejects_disagreeing_shapes
           {| ncols := 1; rows := [[1%R]; [0%R]] |}
           {| ncols := 1; rows := [[1%R]] |}).
  left. unfold nrows; simpl. lia.
Defined.

(** C7, as first stated, fails: two matrices without rows but of one width
    pass both shape checks, and [score] returns the mean over no rows. *)
Lemma C7_counterexample :
  ~ (forall Q D : Matrix,
       nrows Q <> nrows D \/ ncols Q <> ncols D \/ nrows Q = 0 \/ nrows D = 0 ->
       exists op, score Q D = Raise (ShapeError op)).
Proof.
  intros H.
  destruct (H {| ncols := 1; rows := [] |} {| ncols := 1; rows := [] |})
    as [op Hop].
  - right; right; left. reflexivity.
  - discriminate Hop.
Qed.

(** The value [score] returns there. *)
Lemma score_no_rows (p : nat) :
  score {| ncols := p; rows := [] |} {| ncols := p; rows := [] |} =
  Ok ((Rsum [] / INR 0 + Rsum [] / INR 0) / 2)%R.
Proof.
  unfold score, mm. rewrite nrows_t. simpl. rewrite Nat.eqb_refl. reflexivity.
Qed.

(** ** Integers, slices and sub-batches *)

Lemma py_ceil_div_nat (b c : nat) :
  0 < c ->
  py_ceil_div (Z.of_nat b) (Z.of_nat c) = Ok (Z.of_nat (ceil_div b c)).
Proof.
  intros Hc. unfold py_ceil_div, ceil_div.
  destruct (Z.eqb_spec (Z.of_nat c) 0) as [E|_]; [lia|]. f_equal.
  rewrite Nat2Z.inj_div, Nat2Z.inj_sub, Nat2Z.inj_add by lia.
  change (Z.of_nat 1) with 1%Z.
  pose proof (Z.div_mod (- Z.of_nat b) (Z.of_nat c) ltac:(lia)) as Hdm.
  pose proof (Z.mod_pos_bound (- Z.of_nat b) (Z.of_nat c) ltac:(lia)) as Hr.
  apply (Z.div_unique _ _ _
           (Z.of_nat c - 1 - (- Z.of_nat b) mod Z.of_nat c)%Z); lia.
Qed.

Lemma ceil_div_bounds (b c : nat) :
  0 < c -> 0 < b -> (ceil_div b c - 1) * c < b <= ceil_div b c * c.
Proof.
  intros Hc Hb. unfold ceil_div.
  pose proof (Nat.div_mod (b + c - 1) c ltac:(lia)) as Hdm.
  pose proof (Nat.mod_upper_bound (b + c - 1) c ltac:(lia)) as Hr.
  assert (1 <= (b + c - 1) / c) by (apply Nat.div_le_lower_bound; lia).
  nia.
Qed.

Lemma range_of_nat (n : nat) : range (Z.of_nat n) = map Z.of_nat (seq 0 n).
Proof. unfold range. rewrite Nat2Z.id. reflexivity. Qed.

Lemma py_slice_nat {A} (k c : nat) (xs : list A) :
  py_slice (Z.of_nat k * Z.of_nat c) ((Z.of_nat k + 1) * Z.of_nat c) xs =
  take c (drop (k * c) xs).
Proof.
  unfold py_slice, clamp_index.
  destruct (Z.ltb_spec (Z.of_nat k * Z.of_nat c) 0) as [E|_]; [lia|].
  destruct (Z.ltb_spec ((Z.of_nat k + 1) * Z.of_nat c) 0) as [E|_]; [lia|].
  replace (Z.to_nat (Z.of_nat k * Z.of_nat c)) with (k * c) by lia.
  replace (Z.to_nat ((Z.of_nat k + 1) * Z.of_nat c)) with (k * c + c) by lia.
  destruct (Nat.le_gt_cases (length xs) (k * c)) as [Hge|Hlt].
  - rewrite Nat.min_r by lia. rewrite !drop_ge by lia. rewrite !take_nil.
    reflexivity.
  - rewrite (Nat.min_l (k * c)) by lia.
    destruct (Nat.le_gt_cases (k * c + c) (length xs)) as [Hle|Hgt].
    + rewrite Nat.min_l by lia. f_equal. lia.
    + rewrite Nat.min_r by lia.
      rewrite !take_ge; [reflexivity|rewrite length_drop; lia..].
Qed.

Lemma concat_chunks {A} (c n : nat) :
  forall xs : list A,
    length xs <= n * c ->
    concat (map (fun b => take c (drop (b * c) xs)) (seq 0 n)) = xs.
Proof.
  induction n as [|n IH]; intros xs Hlen; simpl in *.
  - destruct xs; simpl in *; [reflexivity|lia].
  - rewrite <- seq_shift, map_map.
    transitivity (take c xs ++ drop c xs); [|apply take_drop]. f_equal.
    transitivity (concat (map (fun b => take c (drop (b * c) (drop c xs)))
                              (seq 0 n)));
      [|apply IH; rewrite length_drop; lia].
    f_equal. apply map_ext. intros b. rewrite drop_drop. do 2 f_equal; lia.
Qed.

Lemma concat_sub_batches {A} (c : nat) (xs : list A) :
  0 < c -> concat (sub_batches c xs) = xs.
Proof.
  intros Hc. unfold sub_batches. apply concat_chunks.
  destruct xs as [|x xs]; [simpl; lia|].
  apply (ceil_div_bounds (length (x :: xs)) c); simpl; lia.
Qed.

(** ** Traced computations, step by step *)

Lemma bind_ok {A B} (tr : list Event) (a : A) (f : A -> Run B) :
  mkRun tr (Ok a) ≫= f = mkRun (tr ++ trace (f a)) (outcome (f a)).
Proof. reflexivity. Qed.

Lemma bind_raise {A B} (tr : list Event) (e : Error) (f : A -> Run B) :
  mkRun tr (Raise e) ≫= f = mkRun tr (Raise e).
Proof. reflexivity. Qed.

Lemma bind_lift_ok {A B} (a : A) (f : A -> Run B) : lift (Ok a) ≫= f = f a.
Proof.
  unfold lift. rewrite bind_ok. simpl. destruct (f a); reflexivity.
Qed.

Lemma for_each_map {A A' B} (g : A -> A') (f : A' -> Run B) (l : list A) :
  for_each f (map g l) = for_each (fun x => f (g x)) l.
Proof.
  induction l as [|x l IH]; simpl; [reflexivity|]. rewrite IH. reflexivity.
Qed.

Lemma for_each_ok {A B} (f : A -> Run B) (ev : A -> Event) (v : A -> B)
    (l : list A) :
  (forall x, In x l -> f x = mkRun [ev x] (Ok (v x))) ->
  for_each f l = mkRun (map ev l) (Ok (map v l)).
Proof.
  induction l as [|x l IH]; intros Hf; simpl; [reflexivity|].
  rewrite (Hf x) by (left; reflexivity).
  rewrite IH by (intros y Hy; apply Hf; right; exact Hy).
  rewrite bind_ok, bind_ok. simpl. rewrite app_nil_r. reflexivity.
Qed.

(** ** The encoder on batches *)

Lemma rowwise2_ok {A B C} (f : A -> B -> C) (xs : list A) (ys : list B) :
  length xs = length ys -> rowwise2 f xs ys = Ok (zip_with f xs ys).
Proof. intros H. unfold rowwise2. rewrite H, Nat.eqb_refl. reflexivity. Qed.


Lemma map_zip_with {A B C D} (p : C -> D) (g : A -> B -> C)
    (l : list A) (k : list B) :
  map p (zip_with g l k) = zip_with (fun x y => p (g x y)) l k.
Proof.
  revert k. induction l as [|x l IH]; intros [|y k]; simpl; try reflexivity.
  f_equal. apply IH.
Qed.

Lemma zip_with_map_same {A B C D} (F : B -> C -> D) (f : A -> B) (g : A -> C)
    (l : list A) :
  zip_with F (map f l) (map g l) = map (fun i => F (f i) (g i)) l.
Proof.
  induction l as [|x l IH]; simpl; [reflexivity|]. f_equal. exact IH.
Qed.

Lemma zip_with_encode {A B A' B' C} (F : A' -> B' -> C) (E : A -> A -> A')
    (z : A -> A) (X : B -> B') (l : list A) (k : list B) :
  zip_with F (zip_with E l (map z l)) (map X k) =
  zip_with (fun i a => F (E i (z i)) (X a)) l k.
Proof.
  revert k. induction l as [|x l IH]; intros [|y k]; simpl; try reflexivity.
  f_equal. apply IH.
Qed.

Lemma zip_with_chunk {A B C} (f : A -> B -> C) (c s : nat)
    (l : list A) (k : list B) :
  zip_with f (take c (drop s l)) (take c (drop s k)) =
  take c (drop s (zip_with f l k)).
Proof.
  rewrite zip_with_drop, zip_with_take. reflexivity.
Qed.

Lemma embeddings_run (m : BertModel) (input_ids : list (list Z)) :
  embeddings m input_ids (zeros_like input_ids) =
  mkRun [EvEmbeddings input_ids]
        (Ok (zip_with (embeddings_seq m) input_ids (zeros_like input_ids))).
Proof.
  unfold embeddings. rewrite rowwise2_ok; [reflexivity|].
  unfold zeros_like. rewrite length_map. reflexivity.
Qed.

Lemma single_pass_run (input_ids : list (list Z)) (attention_mask : list (list R))
    (m : BertModel) :
  length input_ids = length attention_mask ->
  single_pass input_ids attention_mask m =
  mkRun [EvForward input_ids attention_mask]
        (Ok (pooled_batch m input_ids attention_mask)).
Proof.
  intros Hlen. unfold single_pass, BertModel_call.
  rewrite rowwise2_ok by exact Hlen.
  unfold pooled_batch, pooled_seq, mbind, mret, Run_bind, Run_ret, emit, lift,
    pooler; simpl.
  rewrite map_zip_with. reflexivity.
Qed.


(** The guard of [embed_sentences_checkpointed]: a negative
    [checkpoint_batch_size], or one above the batch size, selects the single
    pass. *)
Lemma embed_sentences_checkpointed_guard (input_ids : list (list Z))
    (attention_mask : list (list R)) (m : BertModel) (c : Z) :
  (c < 0 \/ Z.of_nat (length input_ids) < c)%Z ->
  embed_sentences_checkpointed input_ids attention_mask m c =
  single_pass input_ids attention_mask m.
Proof.
  intros H. unfold embed_sentences_checkpointed, single_pass.
  destruct (Z.ltb_spec c 0); [reflexivity|].
  destruct (Z.ltb_spec (Z.of_nat (length input_ids)) c); [reflexivity|lia].
Qed.

(** [checkpoint_batch_size = 0] passes the guard and reaches
    [math.ceil(batch / 0)]. *)
Lemma embed_sentences_checkpointed_zero (input_ids : list (list Z))
    (attention_mask : list (list R)) (m : BertModel) :
  embed_sentences_checkpointed input_ids attention_mask m 0 =
  mkRun [EvEmbeddings input_ids] (Raise ZeroDivisionError).
Proof.
  unfold embed_sentences_checkpointed.
  destruct (Z.ltb_spec 0 0); [lia|].
  destruct (Z.ltb_spec (Z.of_nat (length input_ids)) 0); [lia|].
  cbv zeta. rewrite embeddings_run. reflexivity.
Qed.

(** ** The checkpointed pass *)

Lemma cat_ok (w : nat) (ts : list Matrix) :
  ts <> [] -> (forall m, In m ts -> ncols m = w) ->
  cat ts = Ok {| ncols := w; rows := concat (map rows ts) |}.
Proof.
  destruct ts as [|t0 ts]; [congruence|]. intros _ Hw. unfold cat.
  assert (H : forallb (fun m => Nat.eqb (ncols m) (ncols t0)) (t0 :: ts) = true).
  { apply List.forallb_forall. intros m Hm. apply Nat.eqb_eq.
    rewrite (Hw m Hm). symmetry. apply Hw. left. reflexivity. }
  rewrite H. rewrite (Hw t0) by (left; reflexivity). reflexivity.
Qed.

Lemma partial_encode_ok (m : BertModel) (hm : list (option Vec))
    (in0 : list SeqStates) (in1 : list (list R)) :
  length in0 = length in1 ->
  partial_encode m hm in0 in1 =
  Ok {| ncols := bert_hidden_size m;
        rows := zip_with (fun h a => pooler_seq m (encoder_seq m h a hm)) in0 in1 |}.
Proof.
  intros Hlen. unfold partial_encode, encoder. rewrite rowwise2_ok by exact Hlen.
  unfold pooler; simpl. rewrite map_zip_with. reflexivity.
Qed.

(** The loop over the sub-batches: one checkpointed run per sub-batch, in
    index order, each on the rows [b * c .. (b + 1) * c) of the embedding
    output and of the extended mask. *)
Lemma checkpoint_loop_run (m : BertModel) (hm : list (option Vec)) (c n : nat)
    (emb : list SeqStates) (ext : list (list R)) :
  length emb = length ext ->
  for_each (fun b =>
      checkpoint (partial_encode m hm)
        (py_slice (b * Z.of_nat c) ((b + 1) * Z.of_nat c) emb)
        (py_slice (b * Z.of_nat c) ((b + 1) * Z.of_nat c) ext))
    (range (Z.of_nat n)) =
  mkRun (map (fun k => EvCheckpoint (take c (drop (k * c) emb))
                                    (take c (drop (k * c) ext))) (seq 0 n))
        (Ok (map (fun k =>
               {| ncols := bert_hidden_size m;
                  rows := take c (drop (k * c)
                            (zip_with (fun h a => pooler_seq m (encoder_seq m h a hm))
                                      emb ext)) |}) (seq 0 n))).
Proof.
  intros Hlen. rewrite range_of_nat, for_each_map.
  apply for_each_ok. intros k _.
  rewrite !py_slice_nat. unfold checkpoint.
  rewrite partial_encode_ok
    by (rewrite !length_take, !length_drop, Hlen; reflexivity).
  rewrite zip_with_chunk. reflexivity.
Qed.

(** With [0 < c <= batch size], the pass runs the embedding layer once,
    then one checkpointed run per sub-batch, and returns the full-batch
    pooled output. *)
Lemma checkpointed_run (input_ids : list (list Z)) (attention_mask : list (list R))
    (m : BertModel) (c : nat) :
  0 < c <= length input_ids ->
  length attention_mask = length input_ids ->
  embed_sentences_checkpointed input_ids attention_mask m (Z.of_nat c) =
  mkRun (EvEmbeddings input_ids ::
         zip_with EvCheckpoint
           (sub_batches c (zip_with (embeddings_seq m) input_ids (zeros_like input_ids)))
           (sub_batches c (get_extended_attention_mask m attention_mask)))
        (Ok (pooled_batch m input_ids attention_mask)).
Proof.
  intros Hc Hlen. unfold embed_sentences_checkpointed.
  destruct (Z.ltb_spec (Z.of_nat c) 0); [lia|].
  destruct (Z.ltb_spec (Z.of_nat (length input_ids)) (Z.of_nat c)); [lia|].
  cbv zeta. simpl orb. cbv iota.
  set (emb := zip_with (embeddings_seq m) input_ids (zeros_like input_ids)).
  set (ext := get_extended_attention_mask m attention_mask).
  set (hm := repeat None (bert_num_hidden_layers m)).
  assert (Hemb : length emb = length input_ids).
  { unfold emb, zeros_like. rewrite length_zip_with, length_map. lia. }
  assert (Hext : length ext = length input_ids).
  { unfold ext, get_extended_attention_mask. rewrite length_map. exact Hlen. }
  rewrite embeddings_run. fold emb. rewrite bind_ok.
  rewrite py_ceil_div_nat by lia. rewrite bind_lift_ok.
  rewrite (checkpoint_loop_run m hm c _ emb ext) by lia.
  rewrite bind_ok.
  pose proof (ceil_div_bounds (length input_ids) c ltac:(lia) ltac:(lia)) as Hn.
  set (n := ceil_div (length input_ids) c) in *.
  rewrite (cat_ok (bert_hidden_size m)).
  - simpl. rewrite !app_nil_r. f_equal.
    + f_equal. unfold sub_batches. rewrite Hemb, Hext. fold n.
      rewrite zip_with_map_same. reflexivity.
    + f_equal. unfold pooled_batch. f_equal.
      rewrite map_map. simpl.
      rewrite concat_chunks
        by (rewrite length_zip_with; lia).
      unfold emb, ext, get_extended_attention_mask, zeros_like, pooled_seq, hm.
      rewrite zip_with_encode. reflexivity.
  - destruct n; simpl; [lia|discriminate].
  - intros M HM. apply in_map_iff in HM. destruct HM as (k & <- & _). reflexivity.
Qed.

Lemma sub_batches_length {A} (c : nat) (xs : list A) :
  length (sub_batches c xs) = ceil_div (length xs) c.
Proof. unfold sub_batches. rewrite length_map. apply length_seq. Qed.

Lemma sub_batches_nth {A} (c b : nat) (xs : list A) :
  b < ceil_div (length xs) c ->
  nth b (sub_batches c xs) [] = take c (drop (b * c) xs).
Proof.
  intros Hb. unfold sub_batches.
  rewrite (nth_map_lt (fun b => take c (drop (b * c) xs)) _ b 0 [])
    by (rewrite length_seq; exact Hb).
  rewrite seq_nth by exact Hb. reflexivity.
Qed.

Lemma chunk_length_full {A} (c b : nat) (xs : list A) :
  (b + 1) * c <= length xs -> length (take c (drop (b * c) xs)) = c.
Proof. intros H. rewrite length_take, length_drop. lia. Qed.

Lemma chunk_length_last {A} (c b : nat) (xs : list A) :
  length xs <= (b + 1) * c ->
  length (take c (drop (b * c) xs)) = length xs - b * c.
Proof. intros H. rewrite length_take, length_drop. lia. Qed.

(** ** [embed_sentences_checkpointed]: the claims *)

(** C1. On a batch (token ids and attention mask of one batch size) and for
    every [checkpoint_batch_size] strictly between 0 and the batch size, the
    checkpointed pass returns the pooled output of the single pass, which is
    also what the default [checkpoint_batch_size = -1] returns; only the
    calls made on the way differ. *)
Theorem C1_checkpointing_preserves_pooled_output
    (input_ids : list (list Z)) (attention_mask : list (list R))
    (sent_encoder : BertModel) (checkpoint_batch_size : Z) :
  length attention_mask = length input_ids ->
  (0 < checkpoint_batch_size < Z.of_nat (length input_ids))%Z ->
  outcome (embed_sentences_checkpointed input_ids attention_mask sent_encoder
             checkpoint_batch_size)
  = outcome (single_pass input_ids attention_mask sent_encoder)
  /\ outcome (embed_sentences_checkpointed input_ids attention_mask sent_encoder
                checkpoint_batch_size)
     = outcome (embed_sentences_checkpointed input_ids attention_mask sent_encoder
                  (-1)).
Proof.
  intros Hlen Hc.
  rewrite (embed_sentences_checkpointed_guard _ _ _ (-1)%Z) by lia.
  rewrite single_pass_run by lia.
  rewrite <- (Z2Nat.id checkpoint_batch_size) by lia.
  rewrite checkpointed_run by lia.
  split; reflexivity.
Qed.

Lemma C1_witness :
  outcome (embed_sentences_checkpointed toy_ids toy_mask toy_bert 2)
  = outcome (single_pass toy_ids toy_mask toy_bert)
  /\ outcome (embed_sentences_checkpointed toy_ids toy_mask toy_bert 2)
     = outcome (embed_sentences_checkpointed toy_ids toy_mask toy_bert (-1)).
Proof.
  apply (C1_checkpointing_preserves_pooled_output toy_ids toy_mask toy_bert 2).
  - reflexivity.
  - simpl. lia.
Defined.

(** Why C1 speaks of a batch: with four rows of token ids against five rows
    of mask the single pass is rejected, while the slices of size two agree
    pairwise and the checkpointed pass returns a value. *)
Example mismatched_mask_is_not_a_batch :
  let ids := [[1%Z]; [2%Z]; [3%Z]; [4%Z]] in
  let mask := [[1%R]; [1%R]; [1%R]; [1%R]; [1%R]] in
  outcome (single_pass ids mask toy_bert) = Raise (ShapeError op_encoder)
  /\ outcome (embed_sentences_checkpointed ids mask toy_bert 2)
     = Ok {| ncols := 1; rows := [[1%R]; [2%R]; [3%R]; [4%R]] |}.
Proof. split; reflexivity. Qed.

(** C3 fails at [checkpoint_batch_size = 0]: the guard tests [< 0], so zero
    is taken for an active checkpoint size; the embedding layer runs, and
    the sub-batch count [math.ceil(batch / 0)] raises [ZeroDivisionError]
    instead of the batch being encoded in one pass. *)
Theorem C3_zero_checkpoint_batch_size_raises
    (input_ids : list (list Z)) (attention_mask : list (list R))
    (sent_encoder : BertModel) :
  embed_sentences_checkpointed input_ids attention_mask sent_encoder 0 =
  mkRun [EvEmbeddings input_ids] (Raise ZeroDivisionError).
Proof. apply embed_sentences_checkpointed_zero. Qed.

(** The part of C3 that holds: a negative size, or one above the batch
    size, gives the single pass, one call of the encoder on the whole
    batch. *)
Lemma single_pass_when_negative_or_above (input_ids : list (list Z))
    (attention_mask : list (list R)) (sent_encoder : BertModel) (c : Z) :
  (c < 0 \/ Z.of_nat (length input_ids) < c)%Z ->
  length attention_mask = length input_ids ->
  embed_sentences_checkpointed input_ids attention_mask sent_encoder c =
  mkRun [EvForward input_ids attention_mask]
        (Ok (pooled_batch sent_encoder input_ids attention_mask)).
Proof.
  intros Hc Hlen. rewrite embed_sentences_checkpointed_guard by exact Hc.
  apply single_pass_run. lia.
Qed.

(** On the example batch the single pass returns the pooled output, and
    size zero raises. *)
Example zero_size_differs_from_single_pass :
  outcome (single_pass toy_ids toy_mask toy_bert)
  = Ok {| ncols := 1; rows := [[1%R]; [2%R]; [3%R]] |}
  /\ outcome (embed_sentences_checkpointed toy_ids toy_mask toy_bert 0)
     = Raise ZeroDivisionError.
Proof. split; reflexivity. Qed.

(** C6. With [0 < c <= batch size] the batch is cut into [ceil(B / c)]
    contiguous sub-batches in index order; all but the last hold [c] rows,
    the last holds the remaining [B - (n - 1) * c] rows (between 1 and [c]);
    the sub-batches concatenate to the batch; each is run under
    checkpointing, in order; and the pass returns the pooled vectors of all
    [B] rows in batch order, not an exception. *)
Theorem C6_partition_into_sub_batches
    (input_ids : list (list Z)) (attention_mask : list (list R))
    (sent_encoder : BertModel) (c : nat) :
  0 < c <= length input_ids ->
  length attention_mask = length input_ids ->
  let B := length input_ids in
  let n := ceil_div B c in
  let emb := zip_with (embeddings_seq sent_encoder) input_ids (zeros_like input_ids) in
  let ext := get_extended_attention_mask sent_encoder attention_mask in
  let run := embed_sentences_checkpointed input_ids attention_mask sent_encoder
               (Z.of_nat c) in
  (n - 1) * c < B <= n * c
  /\ length (sub_batches c emb) = n
  /\ (forall b, b < n -> nth b (sub_batches c emb) [] = take c (drop (b * c) emb))
  /\ (forall b, b + 1 < n -> length (nth b (sub_batches c emb) []) = c)
  /\ length (nth (n - 1) (sub_batches c emb) []) = B - (n - 1) * c
  /\ 0 < B - (n - 1) * c <= c
  /\ concat (sub_batches c emb) = emb
  /\ trace run = EvEmbeddings input_ids ::
                 zip_with EvCheckpoint (sub_batches c emb) (sub_batches c ext)
  /\ outcome run = Ok (pooled_batch sent_encoder input_ids attention_mask)
  /\ nrows (pooled_batch sent_encoder input_ids attention_mask) = B.
Proof.
  intros Hc Hlen B n emb ext run.
  assert (Hemb : length emb = B).
  { unfold emb, zeros_like. rewrite length_zip_with, length_map. lia. }
  pose proof (ceil_div_bounds B c ltac:(lia) ltac:(unfold B; lia)) as Hn.
  fold n in Hn.
  assert (Hrun : run = mkRun (EvEmbeddings input_ids ::
                   zip_with EvCheckpoint (sub_batches c emb) (sub_batches c ext))
                   (Ok (pooled_batch sent_encoder input_ids attention_mask)))
    by (apply checkpointed_run; assumption).
  repeat split.
  - lia.
  - lia.
  - rewrite sub_batches_length, Hemb. reflexivity.
  - intros b Hb. apply sub_batches_nth. rewrite Hemb. exact Hb.
  - intros b Hb. rewrite sub_batches_nth by (rewrite Hemb; fold n; lia).
    apply chunk_length_full. rewrite Hemb. nia.
  - rewrite sub_batches_nth by (rewrite Hemb; fold n; lia).
    rewrite chunk_length_last; rewrite Hemb; [reflexivity|].
    replace (n - 1 + 1) with n by lia. lia.
  - lia.
  - nia.
  - apply concat_sub_batches. lia.
  - rewrite Hrun. reflexivity.
  - rewrite Hrun. reflexivity.
  - unfold pooled_batch, nrows; simpl. rewrite length_zip_with. lia.
Qed.

Lemma C6_witness :
  let B := length toy_ids in
  let n := ceil_div B 2 in
  let emb := zip_with (embeddings_seq toy_bert) toy_ids (zeros_like toy_ids) in
  let ext := get_extended_attention_mask toy_bert toy_mask in
  let run := embed_sentences_checkpointed toy_ids toy_mask toy_bert (Z.of_nat 2) in
  (n - 1) * 2 < B <= n * 2
  /\ length (sub_batches 2 emb) = n
  /\ (forall b, b < n -> nth b (sub_batches 2 emb) [] = take 2 (drop (b * 2) emb))
  /\ (forall b, b + 1 < n -> length (nth b (sub_batches 2 emb) []) = 2)
  /\ length (nth (n - 1) (sub_batches 2 emb) []) = B - (n - 1) * 2
  /\ 0 < B - (n - 1) * 2 <= 2
  /\ concat (sub_batches 2 emb) = emb
  /\ trace run = EvEmbeddings toy_ids ::
                 zip_with EvCheckpoint (sub_batches 2 emb) (sub_batches 2 ext)
  /\ outcome run = Ok (pooled_batch toy_bert toy_ids toy_mask)
  /\ nrows (pooled_batch toy_bert toy_ids toy_mask) = B.
Proof.
  apply (C6_partition_into_sub_batches toy_ids toy_mask toy_bert 2).
  - simpl. lia.
  - reflexivity.
Defined.

(** The example batch of three rows with sub-batches of two: a sub-batch of
    rows 0 and 1, then the smaller sub-batch of row 2. *)
Example uneven_partition_trace :
  trace (embed_sentences_checkpointed toy_ids toy_mask toy_bert 2) =
  [ EvEmbeddings toy_ids;
    EvCheckpoint [[[1%R]]; [[2%R]]] [[1%R]; [1%R]];
    EvCheckpoint [[[3%R]]] [[1%R]] ].
Proof. reflexivity. Qed.

(** ** The store of a constructed model *)

Ltac solve_alloc_lookup :=
  repeat (rewrite lookup_app_l by (rewrite ?length_app; simpl; lia));
  apply list_lookup_middle; rewrite ?length_app; simpl; lia.

Lemma init_linked (config : RetriBertConfig) (w : InitialWeights) (h0 : Heap) :
  linked config w (RetriBertModel_init config w h0).1
                  (RetriBertModel_init config w h0).2.
Proof.
  unfold linked, RetriBertModel_init, alloc.
  destruct (share_encoders config) eqn:Hshare; simpl;
    rewrite ?length_app; simpl;
    repeat split; try reflexivity; try lia; try solve_alloc_lookup.
Qed.

Lemma init_shared_bert_doc (config : RetriBertConfig) (w : InitialWeights)
    (h0 : Heap) :
  bert_doc (RetriBertModel_init config w h0).1 = None <->
  share_encoders config = true.
Proof.
  unfold RetriBertModel_init, alloc.
  destruct (share_encoders config); simpl; split; congruence.
Qed.

(** ** What the embedding operations read from the store *)

Lemma embed_questions_frame (self : RetriBertModel) (h h' : Heap)
    (ids : list (list Z)) (mask : list (list R)) (c : Z) :
  h' !! bert_query self = h !! bert_query self ->
  h' !! project_query self = h !! project_query self ->
  embed_questions self h' ids mask c = embed_questions self h ids mask c.
Proof.
  intros Hb Hp. unfold embed_questions, get_bert, get_linear.
  rewrite Hb, Hp. reflexivity.
Qed.

Lemma embed_answers_frame (self : RetriBertModel) (h h' : Heap)
    (ids : list (list Z)) (mask : list (list R)) (c : Z) :
  h' !! doc_encoder_loc self = h !! doc_encoder_loc self ->
  h' !! project_doc self = h !! project_doc self ->
  embed_answers self h' ids mask c = embed_answers self h ids mask c.
Proof.
  intros Hb Hp. unfold embed_answers, get_bert, get_linear.
  fold (doc_encoder_loc self). rewrite Hb, Hp. reflexivity.
Qed.

Lemma forward_frame (self : RetriBertModel) (h h' : Heap)
    (iq : list (list Z)) (mq : list (list R))
    (id : list (list Z)) (md : list (list R)) (c : Z) :
  h' !! bert_query self = h !! bert_query self ->
  h' !! doc_encoder_loc self = h !! doc_encoder_loc self ->
  h' !! project_query self = h !! project_query self ->
  h' !! project_doc self = h !! project_doc self ->
  forward self h' iq mq id md c = forward self h iq mq id md c.
Proof.
  intros Hbq Hbd Hpq Hpd. unfold forward.
  rewrite (embed_questions_frame self h h') by assumption.
  destruct (embed_questions self h iq mq c) as [tr [q|e]]; [|reflexivity].
  rewrite !bind_ok.
  rewrite (embed_answers_frame self h h') by assumption. reflexivity.
Qed.

Lemma embed_questions_linked (config : RetriBertConfig) (w : InitialWeights)
    (self : RetriBertModel) (h : Heap)
    (ids : list (list Z)) (mask : list (list R)) (c : Z) :
  linked config w self h ->
  embed_questions self h ids mask c =
  (q_reps ← embed_sentences_checkpointed ids mask
              (BertModel_init config (init_bert_query w)) c;
   lift (Linear_call (nn_Linear (hidden_size config) (projection_dim config)
                                false (init_project_query w)) q_reps)).
Proof.
  intros (Hbq & _ & _ & Hpq & _). unfold embed_questions, get_bert, get_linear.
  rewrite Hbq, Hpq, bind_lift_ok.
  destruct (embed_sentences_checkpointed ids mask _ c) as [tr [q|e]];
    [|reflexivity].
  rewrite !bind_ok, bind_lift_ok. reflexivity.
Qed.

Lemma embed_answers_linked (config : RetriBertConfig) (w : InitialWeights)
    (self : RetriBertModel) (h : Heap)
    (ids : list (list Z)) (mask : list (list R)) (c : Z) :
  linked config w self h ->
  embed_answers self h ids mask c =
  (a_reps ← embed_sentences_checkpointed ids mask
              (BertModel_init config (if share_encoders config
                                      then init_bert_query w
                                      else init_bert_doc w)) c;
   lift (Linear_call (nn_Linear (hidden_size config) (projection_dim config)
                                false (init_project_doc w)) a_reps)).
Proof.
  intros (Hbq & Hbd & _ & _ & Hpd & _). unfold embed_answers, get_bert, get_linear.
  destruct (bert_doc self) as [l|].
  - destruct Hbd as (-> & Hl & _). rewrite Hl, Hpd, bind_lift_ok.
    destruct (embed_sentences_checkpointed ids mask _ c) as [tr [q|e]];
      [|reflexivity].
    rewrite !bind_ok, bind_lift_ok. reflexivity.
  - rewrite Hbd, Hbq, Hpd, bind_lift_ok.
    destruct (embed_sentences_checkpointed ids mask _ c) as [tr [q|e]];
      [|reflexivity].
    rewrite !bind_ok, bind_lift_ok. reflexivity.
Qed.

(** ** In-place updates *)

Lemma set_bert_parameters_other (h : Heap) (l l' : loc) (w : BertWeights) :
  l <> l' -> set_bert_parameters h l w !! l' = h !! l'.
Proof.
  intros Hne. unfold set_bert_parameters.
  destruct (h !! l) as [[m| | |]|]; try reflexivity.
  apply list_lookup_insert_ne, Hne.
Qed.

Lemma set_bert_parameters_here (h : Heap) (l : loc) (m : BertModel)
    (w : BertWeights) :
  h !! l = Some (MBert m) ->
  set_bert_parameters h l w !! l =
  Some (MBert {| bert_hidden_size := bert_hidden_size m;
                 bert_num_hidden_layers := bert_num_hidden_layers m;
                 embeddings_seq := w_embeddings w;
                 extend_mask_seq := w_extend_mask w;
                 encoder_seq := w_encoder w;
                 pooler_seq := w_pooler w |}).
Proof.
  intros Hl. unfold set_bert_parameters. rewrite Hl.
  apply list_lookup_insert_eq. apply (lookup_lt_Some _ _ _ Hl).
Qed.

Lemma set_linear_weight_other (h : Heap) (l l' : loc) (w : list Vec) :
  l <> l' -> set_linear_weight h l w !! l' = h !! l'.
Proof.
  intros Hne. unfold set_linear_weight.
  destruct (h !! l) as [[| m | |]|]; try reflexivity.
  apply list_lookup_insert_ne, Hne.
Qed.

Lemma set_linear_weight_here (h : Heap) (l : loc) (m : Linear) (w : list Vec) :
  h !! l = Some (MLinear m) ->
  set_linear_weight h l w !! l =
  Some (MLinear {| in_features := in_features m;
                   out_features := out_features m;
                   weight := {| ncols := in_features m; rows := w |};
                   bias := bias m |}).
Proof.
  intros Hl. unfold set_linear_weight. rewrite Hl.
  apply list_lookup_insert_eq. apply (lookup_lt_Some _ _ _ Hl).
Qed.

(** Updating the parameters of the query encoder in place leaves the object
    graph as [__init__] would have built it from the new parameters. *)
Lemma linked_set_bert_query (config : RetriBertConfig) (w : InitialWeights)
    (self : RetriBertModel) (h : Heap) (w' : BertWeights) :
  linked config w self h ->
  linked config
         {| init_bert_query := w';
            init_bert_doc := init_bert_doc w;
            init_project_query := init_project_query w;
            init_project_doc := init_project_doc w |}
         self (set_bert_parameters h (bert_query self) w').
Proof.
  intros (Hbq & Hbd & Hdo & Hpq & Hpd & N1 & N2 & N3 & N4 & N5 & N6).
  unfold linked; simpl.
  rewrite (set_bert_parameters_here h _ _ w' Hbq).
  rewrite !set_bert_parameters_other by assumption.
  repeat split; try assumption.
  destruct (bert_doc self) as [l|]; [|exact Hbd].
  destruct Hbd as (Hs & Hl & M1 & M2 & M3 & M4).
  rewrite set_bert_parameters_other by congruence.
  repeat split; assumption.
Qed.

(** ** The roles of a constructed model: the claims *)

(** C8. In a model constructed with [share_encoders] set, [bert_doc] is
    [None] and the document role reads the encoder object of the query
    role: after any in-place update of the query encoder's parameters,
    [embed_answers] (and [embed_questions]) embed with the updated
    parameters. *)
Theorem C8_shared_encoder_is_one_object
    (config : RetriBertConfig) (w : InitialWeights) (h0 : Heap)
    (w' : BertWeights) (ids : list (list Z)) (mask : list (list R)) (c : Z) :
  share_encoders config = true ->
  let self := (RetriBertModel_init config w h0).1 in
  let h := (RetriBertModel_init config w h0).2 in
  let h' := set_bert_parameters h (bert_query self) w' in
  bert_doc self = None
  /\ doc_encoder_loc self = bert_query self
  /\ embed_answers self h' ids mask c =
     (a_reps ← embed_sentences_checkpointed ids mask (BertModel_init config w') c;
      lift (Linear_call (nn_Linear (hidden_size config) (projection_dim config)
                                   false (init_project_doc w)) a_reps))
  /\ embed_questions self h' ids mask c =
     (q_reps ← embed_sentences_checkpointed ids mask (BertModel_init config w') c;
      lift (Linear_call (nn_Linear (hidden_size config) (projection_dim config)
                                   false (init_project_query w)) q_reps)).
Proof.
  intros Hshare self h h'.
  assert (Hdoc : bert_doc self = None) by (apply init_shared_bert_doc, Hshare).
  pose proof (linked_set_bert_query config w self h w'
                (init_linked config w h0)) as Hl'.
  fold h' in Hl'.
  repeat split.
  - exact Hdoc.
  - unfold doc_encoder_loc. rewrite Hdoc. reflexivity.
  - rewrite (embed_answers_linked _ _ self h' ids mask c Hl'); simpl.
    rewrite Hshare. reflexivity.
  - rewrite (embed_questions_linked _ _ self h' ids mask c Hl'). reflexivity.
Qed.

Lemma C8_witness :
  let self := (RetriBertModel_init (toy_config true) toy_init []).1 in
  let h := (RetriBertModel_init (toy_config true) toy_init []).2 in
  let h' := set_bert_parameters h (bert_query self) toy_weights' in
  bert_doc self = None
  /\ doc_encoder_loc self = bert_query self
  /\ embed_answers self h' toy_ids toy_mask 2 =
     (a_reps ← embed_sentences_checkpointed toy_ids toy_mask
                 (BertModel_init (toy_config true) toy_weights') 2;
      lift (Linear_call (nn_Linear (hidden_size (toy_config true))
                                   (projection_dim (toy_config true))
                                   false (init_project_doc toy_init)) a_reps))
  /\ embed_questions self h' toy_ids toy_mask 2 =
     (q_reps ← embed_sentences_checkpointed toy_ids toy_mask
                 (BertModel_init (toy_config true) toy_weights') 2;
      lift (Linear_call (nn_Linear (hidden_size (toy_config true))
                                   (projection_dim (toy_config true))
                                   false (init_project_query toy_init)) q_reps)).
Proof.
  apply (C8_shared_encoder_is_one_object (toy_config true) toy_init []
           toy_weights' toy_ids toy_mask 2).
  reflexivity.
Defined.

(** The update is visible: on the example model with shared encoders the
    document embeddings before and after it differ. *)
Example shared_update_is_observable :
  let self := (RetriBertModel_init (toy_config true) toy_init []).1 in
  let h := (RetriBertModel_init (toy_config true) toy_init []).2 in
  let h' := set_bert_parameters h (bert_query self) toy_weights' in
  outcome (embed_answers self h toy_ids toy_mask (-1)) <>
  outcome (embed_answers self h' toy_ids toy_mask (-1)).
Proof.
  intros self h h'.
  assert (E : outcome (embed_answers self h toy_ids toy_mask (-1)) =
              Ok {| ncols := 1;
                    rows := [[dot [1%R] [2%R]]; [dot [2%R] [2%R]];
                             [dot [3%R] [2%R]]] |}) by reflexivity.
  assert (E' : outcome (embed_answers self h' toy_ids toy_mask (-1)) =
               Ok {| ncols := 1;
                     rows := [[dot [7%R] [2%R]]; [dot [7%R] [2%R]];
                              [dot [7%R] [2%R]]] |}) by reflexivity.
  rewrite E, E'. intros [= H _ _]. revert H.
  unfold dot; simpl. rewrite !Rsum_cons, Rsum_nil. lra.
Qed.

(** Without sharing the two encoders are two objects: an update of the
    query encoder leaves the document embeddings as they were. *)
Lemma independent_encoders_not_aliased
    (config : RetriBertConfig) (w : InitialWeights) (h0 : Heap)
    (w' : BertWeights) (ids : list (list Z)) (mask : list (list R)) (c : Z) :
  share_encoders config = false ->
  let self := (RetriBertModel_init config w h0).1 in
  let h := (RetriBertModel_init config w h0).2 in
  embed_answers self (set_bert_parameters h (bert_query self) w') ids mask c =
  embed_answers self h ids mask c.
Proof.
  intros Hshare self h.
  destruct (init_linked config w h0)
    as (_ & Hbd & _ & _ & _ & _ & _ & N3 & _). fold self h in Hbd, N3.
  apply embed_answers_frame.
  - unfold doc_encoder_loc. destruct (bert_doc self) as [l|].
    + destruct Hbd as (_ & _ & M1 & _).
      apply set_bert_parameters_other. congruence.
    + congruence.
  - apply set_bert_parameters_other, N3.
Qed.

(** C9. The two projections are two bias-free linear layers at distinct
    locations, whether or not the encoders are shared; [embed_questions]
    applies [project_query] and [embed_answers] applies [project_doc]; and
    an in-place update of one projection's weight leaves the embeddings of
    the other role as they were. *)
Theorem C9_projections_are_never_shared
    (config : RetriBertConfig) (w : InitialWeights) (h0 : Heap)
    (w' : list Vec) (ids : list (list Z)) (mask : list (list R)) (c : Z) :
  let self := (RetriBertModel_init config w h0).1 in
  let h := (RetriBertModel_init config w h0).2 in
  let proj_q := nn_Linear (hidden_size config) (projection_dim config) false
                          (init_project_query w) in
  let proj_d := nn_Linear (hidden_size config) (projection_dim config) false
                          (init_project_doc w) in
  project_query self <> project_doc self
  /\ get_linear h (project_query self) = Ok proj_q
  /\ get_linear h (project_doc self) = Ok proj_d
  /\ bias proj_q = None /\ bias proj_d = None
  /\ embed_questions self h ids mask c =
     (q_reps ← embed_sentences_checkpointed ids mask
                 (BertModel_init config (init_bert_query w)) c;
      lift (Linear_call proj_q q_reps))
  /\ embed_answers self h ids mask c =
     (a_reps ← embed_sentences_checkpointed ids mask
                 (BertModel_init config (if share_encoders config
                                         then init_bert_query w
                                         else init_bert_doc w)) c;
      lift (Linear_call proj_d a_reps))
  /\ embed_answers self (set_linear_weight h (project_query self) w') ids mask c
     = embed_answers self h ids mask c
  /\ embed_questions self (set_linear_weight h (project_doc self) w') ids mask c
     = embed_questions self h ids mask c.
Proof.
  intros self h proj_q proj_d.
  pose proof (init_linked config w h0) as Hl. fold self h in Hl.
  pose proof Hl as (Hbq & Hbd & Hdo & Hpq & Hpd & N1 & N2 & N3 & N4 & N5 & N6).
  repeat split.
  - exact N6.
  - unfold get_linear. rewrite Hpq. reflexivity.
  - unfold get_linear. rewrite Hpd. reflexivity.
  - apply (embed_questions_linked config w self h ids mask c Hl).
  - apply (embed_answers_linked config w self h ids mask c Hl).
  - apply embed_answers_frame.
    + apply set_linear_weight_other. unfold doc_encoder_loc.
      destruct (bert_doc self) as [l|]; [|congruence].
      destruct Hbd as (_ & _ & _ & _ & M3 & _). congruence.
    + apply set_linear_weight_other, N6.
  - apply embed_questions_frame.
    + apply set_linear_weight_other. congruence.
    + apply set_linear_weight_other. congruence.
Qed.

(** C10. The model's own dropout layer is created and stored, and no
    operation reads it: replacing the object at [self.dropout] by any other
    module, the identity in particular, changes nothing in what
    [embed_questions], [embed_answers] and [forward] compute. *)
Theorem C10_model_dropout_is_never_applied
    (config : RetriBertConfig) (w : InitialWeights) (h0 : Heap) (o : Module)
    (iq : list (list Z)) (mq : list (list R))
    (id : list (list Z)) (md : list (list R)) (c : Z) :
  let self := (RetriBertModel_init config w h0).1 in
  let h := (RetriBertModel_init config w h0).2 in
  h !! dropout self = Some (MDropout (hidden_dropout_prob config))
  /\ embed_questions self (<[dropout self := o]> h) iq mq c
     = embed_questions self h iq mq c
  /\ embed_answers self (<[dropout self := o]> h) id md c
     = embed_answers self h id md c
  /\ forward self (<[dropout self := o]> h) iq mq id md c
     = forward self h iq mq id md c.
Proof.
  intros self h.
  pose proof (init_linked config w h0) as Hl. fold self h in Hl.
  destruct Hl as (Hbq & Hbd & Hdo & Hpq & Hpd & N1 & N2 & N3 & N4 & N5 & N6).
  assert (Hdoc : dropout self <> doc_encoder_loc self).
  { unfold doc_encoder_loc. destruct (bert_doc self) as [l|]; [|congruence].
    destruct Hbd as (_ & _ & _ & M2 & _). congruence. }
  repeat split.
  - exact Hdo.
  - apply embed_questions_frame; apply list_lookup_insert_ne; congruence.
  - apply embed_answers_frame; apply list_lookup_insert_ne; congruence.
  - apply forward_frame; apply list_lookup_insert_ne; congruence.
Qed.

(** * Further properties *)

(** ** When [score] returns *)

Lemma try_map_succeeds {A B} (f : A -> Result B) (l : list A) :
  (forall x, In x l -> exists y, f x = Ok y) -> exists ys, try_map f l = Ok ys.
Proof.
  induction l as [|x l IH]; intros Hf; simpl.
  - exists []. reflexivity.
  - destruct (Hf x (or_introl eq_refl)) as [y ->].
    destruct IH as [ys ->]; [intros z Hz; apply Hf; right; exact Hz|].
    exists (y :: ys). reflexivity.
Qed.

Lemma ce_loss_succeeds (M : Matrix) (target : list nat) :
  nrows M = length target ->
  (forall r c, In (r, c) (combine (rows M) target) -> c < length r) ->
  exists v, ce_loss M target = Ok v.
Proof.
  intros Hn Hin. unfold ce_loss. rewrite Hn, Nat.eqb_refl.
  destruct (try_map_succeeds
              (fun xc => cross_entropy_row (fst xc) (snd xc))
              (combine (rows M) target)) as [ls ->].
  - intros [r c] Hrc. simpl. unfold cross_entropy_row.
    destruct (nth_error r c) as [x|] eqn:E; [eexists; reflexivity|].
    apply nth_error_None in E. specialize (Hin r c Hrc). lia.
  - eexists. reflexivity.
Qed.

Lemma mm_rows_length (A B M : Matrix) :
  mm A B = Ok M -> Forall (fun r => length r = ncols M) (rows M).
Proof.
  unfold mm. destruct (Nat.eqb (ncols A) (nrows B)); [|discriminate].
  intros [= <-]. simpl. apply List.Forall_forall. intros r Hr.
  apply in_map_iff in Hr. destruct Hr as (ra & <- & _).
  rewrite length_map. apply length_seq.
Qed.

Lemma t_rows_length (M : Matrix) :
  Forall (fun r => length r = nrows M) (rows (t M)).
Proof.
  apply List.Forall_forall. intros r Hr. unfold t in Hr; simpl in Hr.
  apply in_map_iff in Hr. destruct Hr as (j & <- & _).
  unfold col, nrows. apply length_map.
Qed.

Lemma ce_loss_arange_succeeds (M : Matrix) (n : nat) :
  nrows M = n -> n <= ncols M ->
  Forall (fun r => length r = ncols M) (rows M) ->
  exists v, ce_loss M (arange n) = Ok v.
Proof.
  intros Hn Hle HF. apply ce_loss_succeeds.
  - unfold arange. rewrite length_seq. exact Hn.
  - intros r c Hrc. rewrite List.Forall_forall in HF.
    rewrite (HF r (in_combine_l _ _ _ _ Hrc)).
    apply in_combine_r, in_seq in Hrc. lia.
Qed.

Lemma score_shapes_agree (Q D : Matrix) :
  ncols Q = ncols D -> nrows Q = nrows D -> exists v, score Q D = Ok v.
Proof.
  intros Hc Hr. unfold score.
  destruct (mm Q (t D)) as [S|e] eqn:E.
  - pose proof (mm_rows_length _ _ _ E) as HF.
    apply mm_inv in E. destruct E as (_ & HSr & HSc). rewrite ncols_t in HSc.
    destruct (ce_loss_arange_succeeds S (ncols S)) as [v1 H1];
      [lia|lia|exact HF|].
    destruct (ce_loss_arange_succeeds (t S) (nrows S)) as [v2 H2];
      [rewrite nrows_t; lia|rewrite ncols_t; lia
      |rewrite ncols_t; apply t_rows_length|].
    simpl. rewrite H1. simpl. rewrite H2. simpl. eexists. reflexivity.
  - unfold mm in E. rewrite nrows_t, Hc, Nat.eqb_refl in E. discriminate.
Qed.

Lemma score_succeeds (Q D : Matrix) :
  succeeds (score Q D) = (Nat.eqb (ncols Q) (ncols D) && Nat.eqb (nrows Q) (nrows D))%bool
  /\ (forall e, score Q D = Raise e -> exists op, e = ShapeError op).
Proof.
  destruct (Nat.eqb_spec (ncols Q) (ncols D)) as [Hc|Hc].
  - destruct (Nat.eqb_spec (nrows Q) (nrows D)) as [Hr|Hr].
    + destruct (score_shapes_agree Q D Hc Hr) as [v ->].
      split; [reflexivity|discriminate].
    + rewrite (score_heights_disagree Q D Hc Hr).
      split; [reflexivity|]. intros e [= <-]. eexists. reflexivity.
  - rewrite (score_widths_disagree Q D Hc).
    split; [reflexivity|]. intros e [= <-]. eexists. reflexivity.
Qed.

(** X1. [score] returns a loss exactly when the two matrices agree in their
    row counts and in their column counts, whatever their entries (ragged
    rows included); in particular the targets [arange] are always in range,
    and no exception other than a shape error can come out of it. *)
Theorem X1_score_succeeds_iff_shapes_agree (Q D : Matrix) :
  succeeds (score Q D) = (Nat.eqb (ncols Q) (ncols D) && Nat.eqb (nrows Q) (nrows D))%bool
  /\ (forall e, score Q D = Raise e -> exists op, e = ShapeError op).
Proof. apply score_succeeds. Qed.

(** ** The size of the loss *)

Lemma ln_le_compat (x y : R) : (0 < x)%R -> (x <= y)%R -> (ln x <= ln y)%R.
Proof.
  intros Hx [Hlt | ->]; [|lra]. left. apply ln_increasing; assumption.
Qed.

Lemma Rsum_exp_nonneg (l : list R) : (0 <= Rsum (map exp l))%R.
Proof.
  induction l as [|x l IH]; simpl; [rewrite Rsum_nil; lra|].
  rewrite Rsum_cons. pose proof (exp_pos x). lra.
Qed.

Lemma Rsum_exp_ge {B} (f : B -> R) (ys : list B) (y : B) :
  In y ys -> (exp (f y) <= Rsum (map exp (map f ys)))%R.
Proof.
  induction ys as [|z ys IH]; intros Hy; [destruct Hy|]. simpl.
  rewrite Rsum_cons. destruct Hy as [-> | Hy].
  - pose proof (Rsum_exp_nonneg (map f ys)). lra.
  - specialize (IH Hy). pose proof (exp_pos (f z)). lra.
Qed.

Lemma Rsum_nonneg (l : list R) : Forall (fun x => (0 <= x)%R) l -> (0 <= Rsum l)%R.
Proof.
  induction 1 as [|x l Hx _ IH]; [rewrite Rsum_nil; lra|].
  rewrite Rsum_cons. lra.
Qed.

Lemma pair_loss_nonneg {A B} (g : A -> B -> R) (xs : list A) (ys : list B) :
  0 < length xs -> (0 <= pair_loss g xs ys)%R.
Proof.
  intros Hlen. unfold pair_loss.
  apply Rmult_le_pos; [|left; apply Rinv_0_lt_compat, lt_0_INR, Hlen].
  apply Rsum_nonneg, List.Forall_forall. intros v Hv.
  apply in_map_iff in Hv. destruct Hv as ([x y] & <- & Hxy). simpl.
  apply in_combine_r in Hxy.
  pose proof (Rsum_exp_ge (g x) ys y Hxy) as Hge.
  pose proof (ln_le_compat _ _ (exp_pos (g x y)) Hge) as Hln.
  rewrite ln_exp in Hln. lra.
Qed.

(** X2. On a non-empty batch of index-aligned embeddings the loss is never
    negative. *)
Theorem X2_score_nonnegative (Q D : Matrix) (B p : nat) :
  has_shape Q B p -> has_shape D B p -> 0 < B ->
  exists v, score Q D = Ok v /\ (0 <= v)%R.
Proof.
  intros HQ HD HB. rewrite (score_pairs Q D B p HQ HD).
  eexists. split; [reflexivity|].
  destruct HQ as (HQB & _). destruct HD as (HDB & _). unfold nrows in *.
  pose proof (pair_loss_nonneg dot (rows Q) (rows D) ltac:(lia)).
  pose proof (pair_loss_nonneg (fun d q => dot q d) (rows D) (rows Q) ltac:(lia)).
  lra.
Qed.

Lemma X2_witness :
  exists v,
    score {| ncols := 1; rows := [[1%R]; [0%R]] |}
          {| ncols := 1; rows := [[3%R]; [5%R]] |} = Ok v /\ (0 <= v)%R.
Proof.
  apply (X2_score_nonnegative _ _ 2 1).
  - split; [reflexivity|split; [reflexivity|repeat constructor]].
  - split; [reflexivity|split; [reflexivity|repeat constructor]].
  - lia.
Defined.

Lemma pair_loss_uniform {A B} (g : A -> B -> R) (xs : list A) (ys : list B) (s : R) :
  length xs = length ys -> 0 < length xs ->
  (forall x y, In x xs -> In y ys -> g x y = s) ->
  pair_loss g xs ys = ln (INR (length xs)).
Proof.
  intros Hlen Hpos Hg. unfold pair_loss.
  assert (Hsum : forall x, In x xs ->
            Rsum (map exp (map (g x) ys)) = (INR (length ys) * exp s)%R).
  { intros x Hx. clear Hlen Hpos.
    assert (Hys : forall y, In y ys -> g x y = s) by (intros; apply Hg; assumption).
    clear Hg. induction ys as [|y ys IH]; simpl length.
    - simpl. rewrite Rsum_nil. simpl. lra.
    - simpl map. rewrite Rsum_cons, S_INR, IH
        by (intros; apply Hys; right; assumption).
      rewrite (Hys y) by (left; reflexivity). lra. }
  assert (Hterms : map (fun xy => (- g (fst xy) (snd xy)
                     + ln (Rsum (map exp (map (g (fst xy)) ys))))%R)
                     (combine xs ys)
                   = map (fun _ => ln (INR (length xs))) (combine xs ys)).
  { apply map_ext_in. intros [x y] Hxy. simpl.
    rewrite (Hsum x (in_combine_l _ _ _ _ Hxy)).
    rewrite (Hg x y (in_combine_l _ _ _ _ Hxy) (in_combine_r _ _ _ _ Hxy)).
    rewrite ln_mult by (try apply exp_pos; apply lt_0_INR; lia).
    rewrite ln_exp, Hlen. lra. }
  rewrite Hterms.
  assert (Hconst : forall (c : R) (l : list (A * B)),
            Rsum (map (fun _ => c) l) = (INR (length l) * c)%R).
  { intros c l. induction l as [|z l IH]; simpl length.
    - simpl. rewrite Rsum_nil. simpl. lra.
    - simpl map. rewrite Rsum_cons, S_INR, IH. lra. }
  rewrite Hconst, length_combine, <- Hlen, Nat.min_id.
  field. apply not_0_INR. lia.
Qed.

Lemma score_uniform (Q D : Matrix) (B p : nat) (s : R) :
  has_shape Q B p -> has_shape D B p -> 0 < B ->
  (forall q d, In q (rows Q) -> In d (rows D) -> dot q d = s) ->
  score Q D = Ok (ln (INR B)).
Proof.
  intros HQ HD HB Hs. rewrite (score_pairs Q D B p HQ HD).
  destruct HQ as (HQB & _). destruct HD as (HDB & _). unfold nrows in *.
  rewrite (pair_loss_uniform dot (rows Q) (rows D) s) by (try lia; exact Hs).
  rewrite (pair_loss_uniform (fun d q => dot q d) (rows D) (rows Q) s)
    by (try lia; intros d q Hd Hq; apply Hs; assumption).
  rewrite HQB, HDB. f_equal. lra.
Qed.

(** X3. When every query is as similar to every document as to any other
    (all dot products equal, as for embeddings that have collapsed to one
    point or to zero), the loss of a batch of [B >= 1] pairs is [ln B]. *)
Theorem X3_score_of_uniform_similarities (Q D : Matrix) (B p : nat) (s : R) :
  has_shape Q B p -> has_shape D B p -> 0 < B ->
  (forall q d, In q (rows Q) -> In d (rows D) -> dot q d = s) ->
  score Q D = Ok (ln (INR B)).
Proof. apply score_uniform. Qed.

Lemma X3_witness :
  score {| ncols := 1; rows := [[0%R]; [0%R]] |}
        {| ncols := 1; rows := [[3%R]; [5%R]] |} = Ok (ln (INR 2)).
Proof.
  apply (X3_score_of_uniform_similarities _ _ 2 1 0%R).
  - split; [reflexivity|split; [reflexivity|repeat constructor]].
  - split; [reflexivity|split; [reflexivity|repeat constructor]].
  - lia.
  - intros q d Hq Hd. simpl in Hq, Hd.
    destruct Hq as [<- | [<- | []]]; destruct Hd as [<- | [<- | []]];
      unfold dot; simpl; rewrite Rsum_cons, Rsum_nil; lra.
Defined.



(** ** [embed_sentences_checkpointed] on every [checkpoint_batch_size] *)

Lemma embed_sentences_checkpointed_batch (input_ids : list (list Z))
    (attention_mask : list (list R)) (m : BertModel) (c : Z) :
  length attention_mask = length input_ids -> c <> 0%Z ->
  outcome (embed_sentences_checkpointed input_ids attention_mask m c) =
  Ok (pooled_batch m input_ids attention_mask).
Proof.
  intros Hlen Hc.
  destruct (Z_lt_le_dec c 0) as [Hneg|Hpos].
  - rewrite embed_sentences_checkpointed_guard by lia.
    rewrite single_pass_run by lia. reflexivity.
  - destruct (Z_lt_le_dec (Z.of_nat (length input_ids)) c) as [Habove|Hle].
    + rewrite embed_sentences_checkpointed_guard by lia.
      rewrite single_pass_run by lia. reflexivity.
    + rewrite <- (Z2Nat.id c) by lia.
      rewrite checkpointed_run by lia. reflexivity.
Qed.



(** ** A mask with surplus rows *)






(** ** The projections of a constructed model *)

Lemma Linear_call_ok (in_f out_f : nat) (w : list Vec) (x : Matrix) :
  ncols x = in_f ->
  Linear_call (nn_Linear in_f out_f false w) x =
  Ok {| ncols := length w;
        rows := map (fun ra =>
                  map (fun j => dot ra (col j (t {| ncols := in_f; rows := w |})))
                      (seq 0 (length w)))
                  (rows x) |}.
Proof.
  intros Hx. unfold Linear_call, nn_Linear; simpl. unfold mm.
  rewrite nrows_t; simpl. rewrite Hx, Nat.eqb_refl. reflexivity.
Qed.

Lemma Linear_call_project (in_f out_f : nat) (w : list Vec) (x : Matrix) :
  Forall (fun r => length r = in_f) w -> ncols x = in_f ->
  Linear_call (nn_Linear in_f out_f false w) x = Ok (project_rows w x).
Proof.
  intros Hw Hx. unfold Linear_call, nn_Linear; simpl.
  rewrite (mm_t x {| ncols := in_f; rows := w |} (length w) in_f)
    by (repeat split; assumption).
  rewrite Hx, Nat.eqb_refl. reflexivity.
Qed.

Lemma project_rows_shape (w : list Vec) (x : Matrix) :
  has_shape (project_rows w x) (nrows x) (length w).
Proof.
  unfold has_shape, project_rows, nrows; simpl. repeat split.
  - apply length_map.
  - apply List.Forall_forall. intros r Hr. apply in_map_iff in Hr.
    destruct Hr as (q & <- & _). apply length_map.
Qed.

(** The outcome of the role wrappers on a constructed model and a batch. *)
Lemma embed_questions_outcome (config : RetriBertConfig) (w : InitialWeights)
    (self : RetriBertModel) (h : Heap)
    (ids : list (list Z)) (mask : list (list R)) (c : Z) :
  linked config w self h -> length mask = length ids -> c <> 0%Z ->
  outcome (embed_questions self h ids mask c) =
  Linear_call (nn_Linear (hidden_size config) (projection_dim config) false
                         (init_project_query w))
              (pooled_batch (BertModel_init config (init_bert_query w)) ids mask).
Proof.
  intros Hl Hlen Hc. rewrite (embed_questions_linked config w self h ids mask c Hl).
  rewrite outcome_bind, embed_sentences_checkpointed_batch by assumption.
  reflexivity.
Qed.

Lemma embed_answers_outcome (config : RetriBertConfig) (w : InitialWeights)
    (self : RetriBertModel) (h : Heap)
    (ids : list (list Z)) (mask : list (list R)) (c : Z) :
  linked config w self h -> length mask = length ids -> c <> 0%Z ->
  outcome (embed_answers self h ids mask c) =
  Linear_call (nn_Linear (hidden_size config) (projection_dim config) false
                         (init_project_doc w))
              (pooled_batch (BertModel_init config (doc_weights config w)) ids mask).
Proof.
  intros Hl Hlen Hc. rewrite (embed_answers_linked config w self h ids mask c Hl).
  rewrite outcome_bind, embed_sentences_checkpointed_batch by assumption.
  reflexivity.
Qed.

(** X7. Embedding is row by row: on a constructed model, the embeddings of
    a batch that is the concatenation of two batches are the embeddings of
    the first followed by those of the second, for either role and for any
    non-zero checkpoint sizes of the three calls. *)
Theorem X7_embedding_a_batch_in_pieces
    (config : RetriBertConfig) (w : InitialWeights) (h0 : Heap)
    (ids1 ids2 : list (list Z)) (mask1 mask2 : list (list R)) (c c1 c2 : Z) :
  length mask1 = length ids1 -> length mask2 = length ids2 ->
  c <> 0%Z -> c1 <> 0%Z -> c2 <> 0%Z ->
  let self := (RetriBertModel_init config w h0).1 in
  let h := (RetriBertModel_init config w h0).2 in
  (exists M M1 M2,
     outcome (embed_questions self h (ids1 ++ ids2) (mask1 ++ mask2) c) = Ok M
     /\ outcome (embed_questions self h ids1 mask1 c1) = Ok M1
     /\ outcome (embed_questions self h ids2 mask2 c2) = Ok M2
     /\ rows M = rows M1 ++ rows M2
     /\ ncols M = ncols M1 /\ ncols M = ncols M2)
  /\ (exists M M1 M2,
     outcome (embed_answers self h (ids1 ++ ids2) (mask1 ++ mask2) c) = Ok M
     /\ outcome (embed_answers self h ids1 mask1 c1) = Ok M1
     /\ outcome (embed_answers self h ids2 mask2 c2) = Ok M2
     /\ rows M = rows M1 ++ rows M2
     /\ ncols M = ncols M1 /\ ncols M = ncols M2).
Proof.
  intros H1 H2 Hc Hc1 Hc2 self h.
  pose proof (init_linked config w h0) as Hl. fold self h in Hl.
  assert (H12 : length (mask1 ++ mask2) = length (ids1 ++ ids2))
    by (rewrite !length_app; lia).
  split.
  - rewrite !(embed_questions_outcome config w self h) by assumption.
    rewrite !Linear_call_ok by reflexivity.
    do 3 eexists. repeat split; simpl.
    rewrite zip_with_app by lia. apply map_app.
  - rewrite !(embed_answers_outcome config w self h) by assumption.
    rewrite !Linear_call_ok by reflexivity.
    do 3 eexists. repeat split; simpl.
    rewrite zip_with_app by lia. apply map_app.
Qed.

Lemma X7_witness :
  let self := (RetriBertModel_init (toy_config false) toy_init []).1 in
  let h := (RetriBertModel_init (toy_config false) toy_init []).2 in
  (exists M M1 M2,
     outcome (embed_questions self h ([[1%Z]; [2%Z]] ++ [[3%Z]])
                              ([[1%R]; [1%R]] ++ [[1%R]]) 2) = Ok M
     /\ outcome (embed_questions self h [[1%Z]; [2%Z]] [[1%R]; [1%R]] (-1)) = Ok M1
     /\ outcome (embed_questions self h [[3%Z]] [[1%R]] 1) = Ok M2
     /\ rows M = rows M1 ++ rows M2
     /\ ncols M = ncols M1 /\ ncols M = ncols M2)
  /\ (exists M M1 M2,
     outcome (embed_answers self h ([[1%Z]; [2%Z]] ++ [[3%Z]])
                            ([[1%R]; [1%R]] ++ [[1%R]]) 2) = Ok M
     /\ outcome (embed_answers self h [[1%Z]; [2%Z]] [[1%R]; [1%R]] (-1)) = Ok M1
     /\ outcome (embed_answers self h [[3%Z]] [[1%R]] 1) = Ok M2
     /\ rows M = rows M1 ++ rows M2
     /\ ncols M = ncols M1 /\ ncols M = ncols M2).
Proof.
  apply (X7_embedding_a_batch_in_pieces (toy_config false) toy_init []
           [[1%Z]; [2%Z]] [[3%Z]] [[1%R]; [1%R]] [[1%R]] 2 (-1) 1);
    (reflexivity || lia).
Defined.

(** ** [forward] on a constructed model *)

Lemma pooled_batch_nrows (m : BertModel) (ids : list (list Z))
    (mask : list (list R)) :
  length mask = length ids -> nrows (pooled_batch m ids mask) = length ids.
Proof.
  intros Hlen. unfold pooled_batch, nrows; simpl. rewrite length_zip_with. lia.
Qed.

(** X8. End to end: on a constructed model whose two projection weights
    have [hidden_size] columns and equally many rows, and on [B] queries and
    [B] documents with their masks, [forward] returns, for every non-zero
    [checkpoint_batch_size], the mean of the two directional cross-entropy
    losses of the projected pooled outputs of the two roles. *)
Theorem X8_forward_is_the_loss_of_the_projected_pooled_outputs
    (config : RetriBertConfig) (w : InitialWeights) (h0 : Heap)
    (iq : list (list Z)) (mq : list (list R))
    (id : list (list Z)) (md : list (list R)) (c : Z) :
  Forall (fun r => length r = hidden_size config) (init_project_query w) ->
  Forall (fun r => length r = hidden_size config) (init_project_doc w) ->
  length (init_project_query w) = length (init_project_doc w) ->
  length mq = length iq -> length md = length id -> length iq = length id ->
  c <> 0%Z ->
  let self := (RetriBertModel_init config w h0).1 in
  let h := (RetriBertModel_init config w h0).2 in
  outcome (forward self h iq mq id md c) =
  Ok (spec_score
        (project_rows (init_project_query w)
           (pooled_batch (BertModel_init config (init_bert_query w)) iq mq))
        (project_rows (init_project_doc w)
           (pooled_batch (BertModel_init config (doc_weights config w)) id md))).
Proof.
  intros Hwq Hwd Hw Hmq Hmd HB Hc self h.
  pose proof (init_linked config w h0) as Hl. fold self h in Hl.
  rewrite forward_outcome.
  rewrite (embed_questions_outcome config w self h) by assumption.
  rewrite (embed_answers_outcome config w self h) by assumption.
  rewrite !Linear_call_project by (assumption || reflexivity). simpl.
  set (Q := project_rows _ _). set (D := project_rows _ _).
  pose proof (project_rows_shape (init_project_query w)
                (pooled_batch (BertModel_init config (init_bert_query w)) iq mq))
    as HQ.
  pose proof (project_rows_shape (init_project_doc w)
                (pooled_batch (BertModel_init config (doc_weights config w)) id md))
    as HD.
  rewrite pooled_batch_nrows in HQ, HD by assumption.
  rewrite <- Hw, <- HB in HD. fold Q in HQ. fold D in HD.
  rewrite (score_pairs Q D _ _ HQ HD).
  rewrite spec_score_pairs; [reflexivity|].
  destruct HQ as (-> & _). destruct HD as (-> & _). reflexivity.
Qed.

Lemma X8_witness :
  let self := (RetriBertModel_init (toy_config false) toy_init []).1 in
  let h := (RetriBertModel_init (toy_config false) toy_init []).2 in
  outcome (forward self h toy_ids toy_mask toy_ids toy_mask 2) =
  Ok (spec_score
        (project_rows (init_project_query toy_init)
           (pooled_batch (BertModel_init (toy_config false) (init_bert_query toy_init))
                         toy_ids toy_mask))
        (project_rows (init_project_doc toy_init)
           (pooled_batch (BertModel_init (toy_config false)
                            (doc_weights (toy_config false) toy_init))
                         toy_ids toy_mask))).
Proof.
  apply (X8_forward_is_the_loss_of_the_projected_pooled_outputs
           (toy_config false) toy_init [] toy_ids toy_mask toy_ids toy_mask 2);
    try reflexivity; try lia; repeat constructor.
Defined.

Lemma Linear_call_shape (in_f out_f : nat) (w : list Vec) (x : Matrix) :
  ncols x = in_f ->
  exists M, Linear_call (nn_Linear in_f out_f false w) x = Ok M
            /\ nrows M = nrows x /\ ncols M = length w.
Proof.
  intros Hx. rewrite Linear_call_ok by exact Hx. eexists. split; [reflexivity|].
  unfold nrows; simpl. rewrite length_map. split; reflexivity.
Qed.

(** X9. On a constructed model and two masked batches, [forward] returns a
    loss exactly when there are as many documents as queries and the two
    projections have equally many rows; with equal projections and unequal
    batch sizes both batches are embedded and the loss raises the shape
    error. *)
Theorem X9_forward_needs_as_many_documents_as_queries
    (config : RetriBertConfig) (w : InitialWeights) (h0 : Heap)
    (iq : list (list Z)) (mq : list (list R))
    (id : list (list Z)) (md : list (list R)) (c : Z) :
  length mq = length iq -> length md = length id -> c <> 0%Z ->
  let self := (RetriBertModel_init config w h0).1 in
  let h := (RetriBertModel_init config w h0).2 in
  succeeds (outcome (forward self h iq mq id md c)) =
  (Nat.eqb (length (init_project_query w)) (length (init_project_doc w))
   && Nat.eqb (length iq) (length id))%bool
  /\ (length (init_project_query w) = length (init_project_doc w) ->
      length iq <> length id ->
      outcome (forward self h iq mq id md c) = Raise (ShapeError op_cross_entropy)).
Proof.
  intros Hmq Hmd Hc self h.
  pose proof (init_linked config w h0) as Hl. fold self h in Hl.
  rewrite forward_outcome.
  rewrite (embed_questions_outcome config w self h) by assumption.
  rewrite (embed_answers_outcome config w self h) by assumption.
  destruct (Linear_call_shape (hidden_size config) (projection_dim config)
              (init_project_query w)
              (pooled_batch (BertModel_init config (init_bert_query w)) iq mq)
              eq_refl) as (Q & -> & HQr & HQc).
  destruct (Linear_call_shape (hidden_size config) (projection_dim config)
              (init_project_doc w)
              (pooled_batch (BertModel_init config (doc_weights config w)) id md)
              eq_refl) as (D & -> & HDr & HDc).
  simpl. rewrite pooled_batch_nrows in HQr, HDr by assumption.
  split.
  - rewrite (proj1 (score_succeeds Q D)), HQr, HQc, HDr, HDc. reflexivity.
  - intros Hw HB. apply score_heights_disagree; lia.
Qed.

Lemma X9_witness :
  let self := (RetriBertModel_init (toy_config true) toy_init []).1 in
  let h := (RetriBertModel_init (toy_config true) toy_init []).2 in
  succeeds (outcome (forward self h toy_ids toy_mask [[5%Z]] [[1%R]] (-1))) =
  (Nat.eqb (length (init_project_query toy_init)) (length (init_project_doc toy_init))
   && Nat.eqb (length toy_ids) (length [[5%Z]]))%bool
  /\ (length (init_project_query toy_init) = length (init_project_doc toy_init) ->
      length toy_ids <> length [[5%Z]] ->
      outcome (forward self h toy_ids toy_mask [[5%Z]] [[1%R]] (-1))
      = Raise (ShapeError op_cross_entropy)).
Proof.
  apply (X9_forward_needs_as_many_documents_as_queries
           (toy_config true) toy_init [] toy_ids toy_mask [[5%Z]] [[1%R]] (-1));
    (reflexivity || lia).
Defined.





(** ** Several models in one store *)

Lemma init_extends (config : RetriBertConfig) (w : InitialWeights) (h : Heap) :
  exists new, (RetriBertModel_init config w h).2 = h ++ new.
Proof.
  unfold RetriBertModel_init, alloc.
  destruct (share_encoders config); simpl; rewrite <- ?app_assoc;
    eexists; reflexivity.
Qed.

Lemma init_locations_fresh (config : RetriBertConfig) (w : InitialWeights)
    (h : Heap) :
  let self := (RetriBertModel_init config w h).1 in
  length h <= bert_query self /\ length h <= doc_encoder_loc self
  /\ length h <= dropout self
  /\ length h <= project_query self /\ length h <= project_doc self.
Proof.
  unfold RetriBertModel_init, alloc, doc_encoder_loc.
  destruct (share_encoders config); simpl; rewrite ?length_app; simpl; lia.
Qed.

Lemma linked_locations_allocated (config : RetriBertConfig) (w : InitialWeights)
    (self : RetriBertModel) (h : Heap) :
  linked config w self h ->
  bert_query self < length h /\ doc_encoder_loc self < length h
  /\ project_query self < length h /\ project_doc self < length h.
Proof.
  intros (Hbq & Hbd & _ & Hpq & Hpd & _). unfold doc_encoder_loc.
  repeat split; try (eapply lookup_lt_Some; eassumption).
  destruct (bert_doc self) as [l|].
  - destruct Hbd as (_ & Hl & _). eapply lookup_lt_Some; eassumption.
  - eapply lookup_lt_Some; eassumption.
Qed.

(** What a model computes is not touched by any change of the store at
    locations allocated after it. *)
Lemma forward_later_store (config : RetriBertConfig) (w : InitialWeights)
    (self : RetriBertModel) (h h' : Heap)
    (iq : list (list Z)) (mq : list (list R))
    (id : list (list Z)) (md : list (list R)) (c : Z) :
  linked config w self h ->
  (forall l, l < length h -> h' !! l = h !! l) ->
  forward self h' iq mq id md c = forward self h iq mq id md c.
Proof.
  intros Hl Hsame.
  destruct (linked_locations_allocated config w self h Hl) as (L1 & L2 & L3 & L4).
  apply forward_frame; apply Hsame; assumption.
Qed.

(** X11. Two models constructed one after the other in one store are
    independent: constructing the second leaves what the first computes
    unchanged, and so does any later in-place update of the second's
    encoder or of its projections. *)
Theorem X11_models_do_not_share_modules
    (config1 config2 : RetriBertConfig) (w1 w2 : InitialWeights) (h0 : Heap)
    (wb : BertWeights) (wl : list Vec)
    (iq : list (list Z)) (mq : list (list R))
    (id : list (list Z)) (md : list (list R)) (c : Z) :
  let self1 := (RetriBertModel_init config1 w1 h0).1 in
  let h1 := (RetriBertModel_init config1 w1 h0).2 in
  let self2 := (RetriBertModel_init config2 w2 h1).1 in
  let h2 := (RetriBertModel_init config2 w2 h1).2 in
  forward self1 h2 iq mq id md c = forward self1 h1 iq mq id md c
  /\ forward self1 (set_bert_parameters h2 (bert_query self2) wb) iq mq id md c
     = forward self1 h1 iq mq id md c
  /\ forward self1 (set_bert_parameters h2 (doc_encoder_loc self2) wb) iq mq id md c
     = forward self1 h1 iq mq id md c
  /\ forward self1 (set_linear_weight h2 (project_query self2) wl) iq mq id md c
     = forward self1 h1 iq mq id md c
  /\ forward self1 (set_linear_weight h2 (project_doc self2) wl) iq mq id md c
     = forward self1 h1 iq mq id md c.
Proof.
  intros self1 h1 self2 h2.
  pose proof (init_linked config1 w1 h0) as Hl. fold self1 h1 in Hl.
  destruct (init_extends config2 w2 h1) as [new Hnew]. fold h2 in Hnew.
  destruct (init_locations_fresh config2 w2 h1) as (F1 & F2 & _ & F4 & F5).
  fold self2 in F1, F2, F4, F5.
  assert (Hold : forall l, l < length h1 -> h2 !! l = h1 !! l)
    by (intros l Hlt; rewrite Hnew; apply lookup_app_l, Hlt).
  repeat split; apply (forward_later_store config1 w1 self1 h1); try exact Hl;
    intros l Hlt.
  - apply Hold, Hlt.
  - rewrite set_bert_parameters_other by lia. apply Hold, Hlt.
  - rewrite set_bert_parameters_other by lia. apply Hold, Hlt.
  - rewrite set_linear_weight_other by lia. apply Hold, Hlt.
  - rewrite set_linear_weight_other by lia. apply Hold, Hlt.
Qed.

(** ** Two encoders *)

Lemma linked_set_bert_doc (config : RetriBertConfig) (w : InitialWeights)
    (self : RetriBertModel) (h : Heap) (l : loc) (w' : BertWeights) :
  linked config w self h -> bert_doc self = Some l ->
  linked config
         {| init_bert_query := init_bert_query w;
            init_bert_doc := w';
            init_project_query := init_project_query w;
            init_project_doc := init_project_doc w |}
         self (set_bert_parameters h l w').
Proof.
  intros (Hbq & Hbd & Hdo & Hpq & Hpd & N1 & N2 & N3 & N4 & N5 & N6) Hdoc.
  unfold linked; simpl. rewrite Hdoc in *.
  destruct Hbd as (Hs & Hl & M1 & M2 & M3 & M4).
  rewrite (set_bert_parameters_here h _ _ w' Hl).
  rewrite !set_bert_parameters_other by assumption.
  repeat split; assumption.
Qed.

(** X12. Without sharing, [bert_doc] is an encoder object of its own: an
    in-place update of the query encoder leaves [embed_answers] unchanged,
    an update of the document encoder leaves [embed_questions] unchanged,
    and [embed_answers] embeds with the document encoder's current
    parameters. *)
Theorem X12_unshared_encoders_are_independent
    (config : RetriBertConfig) (w : InitialWeights) (h0 : Heap)
    (w' : BertWeights) (ids : list (list Z)) (mask : list (list R)) (c : Z) :
  share_encoders config = false ->
  let self := (RetriBertModel_init config w h0).1 in
  let h := (RetriBertModel_init config w h0).2 in
  exists l,
    bert_doc self = Some l /\ l <> bert_query self
    /\ embed_answers self (set_bert_parameters h (bert_query self) w') ids mask c
       = embed_answers self h ids mask c
    /\ embed_questions self (set_bert_parameters h l w') ids mask c
       = embed_questions self h ids mask c
    /\ embed_answers self (set_bert_parameters h l w') ids mask c =
       (a_reps ← embed_sentences_checkpointed ids mask (BertModel_init config w') c;
        lift (Linear_call (nn_Linear (hidden_size config) (projection_dim config)
                                     false (init_project_doc w)) a_reps)).
Proof.
  intros Hshare self h.
  pose proof (init_linked config w h0) as Hl. fold self h in Hl.
  pose proof Hl as (Hbq & Hbd & Hdo & Hpq & Hpd & N1 & N2 & N3 & N4 & N5 & N6).
  destruct (bert_doc self) as [l|] eqn:Hdoc; [|congruence].
  destruct Hbd as (_ & Hld & M1 & M2 & M3 & M4).
  exists l. repeat split.
  - exact M1.
  - apply embed_answers_frame.
    + unfold doc_encoder_loc. rewrite Hdoc.
      apply set_bert_parameters_other. congruence.
    + apply set_bert_parameters_other, N3.
  - apply embed_questions_frame; apply set_bert_parameters_other; assumption.
  - rewrite (embed_answers_linked config _ self _ ids mask c
               (linked_set_bert_doc config w self h l w' Hl Hdoc)); simpl.
    rewrite Hshare. reflexivity.
Qed.

Lemma X12_witness :
  let self := (RetriBertModel_init (toy_config false) toy_init []).1 in
  let h := (RetriBertModel_init (toy_config false) toy_init []).2 in
  exists l,
    bert_doc self = Some l /\ l <> bert_query self
    /\ embed_answers self (set_bert_parameters h (bert_query self) toy_weights')
                     toy_ids toy_mask 2
       = embed_answers self h toy_ids toy_mask 2
    /\ embed_questions self (set_bert_parameters h l toy_weights') toy_ids toy_mask 2
       = embed_questions self h toy_ids toy_mask 2
    /\ embed_answers self (set_bert_parameters h l toy_weights') toy_ids toy_mask 2 =
       (a_reps ← embed_sentences_checkpointed toy_ids toy_mask
                   (BertModel_init (toy_config false) toy_weights') 2;
        lift (Linear_call (nn_Linear (hidden_size (toy_config false))
                                     (projection_dim (toy_config false))
                                     false (init_project_doc toy_init)) a_reps)).
Proof.
  apply (X12_unshared_encoders_are_independent (toy_config false) toy_init []
           toy_weights' toy_ids toy_mask 2).
  reflexivity.
Defined.

(** ** [_init_weights] *)

Lemma fill_length (v : R) (x y : Vec) :
  length x = length y -> fill_ v x = fill_ v y.
Proof.
  revert y. induction x as [|a x IH]; intros [|b y] H; simpl in *;
    try discriminate; [reflexivity|]. f_equal. apply IH. lia.
Qed.

Lemma length_fill (v : R) (x : Vec) : length (fill_ v x) = length x.
Proof. unfold fill_. apply length_map. Qed.

Lemma zero_eq_length (x y : Vec) : zero_ x = zero_ y -> length x = length y.
Proof.
  intros H. apply (f_equal (@length R)) in H.
  unfold zero_ in H. rewrite !length_fill in H. exact H.
Qed.

Lemma length_imap_const {A} (g : nat -> R) (r : list A) :
  length (imap (fun j _ => g j) r) = length r.
Proof. apply length_imap. Qed.

Lemma imap_draws_length {A} (g : nat -> R) (r r' : list A) :
  length r = length r' ->
  imap (fun j _ => g j) r = imap (fun j _ => g j) r'.
Proof.
  revert g r'. induction r as [|a r IH]; intros g [|b r'] H; simpl in *;
    try discriminate; [reflexivity|]. f_equal.
  apply (IH (fun j => g (S j))). lia.
Qed.

Lemma erase_normal_rows (g : nat -> nat -> R) (rs : list Vec) :
  map zero_ (imap (fun i r => imap (fun j _ => g i j) r) rs) = map zero_ rs.
Proof.
  revert g. induction rs as [|r rs IH]; intros g; simpl; [reflexivity|].
  f_equal.
  - apply fill_length, length_imap.
  - apply (IH (fun i => g (S i))).
Qed.

Lemma normal_rows_erased (g : nat -> nat -> R) (rs rs' : list Vec) :
  map zero_ rs = map zero_ rs' ->
  imap (fun i r => imap (fun j _ => g i j) r) rs =
  imap (fun i r => imap (fun j _ => g i j) r) rs'.
Proof.
  revert g rs'. induction rs as [|r rs IH]; intros g [|r' rs'] H; simpl in *;
    try discriminate; [reflexivity|].
  injection H as Hr Hrs. f_equal.
  - apply imap_draws_length, zero_eq_length, Hr.
  - apply (IH (fun i => g (S i))), Hrs.
Qed.

Lemma erase_normal (mean std : R) (noise : nat -> nat -> R) (w : Matrix) :
  erase_matrix (normal_ mean std noise w) = erase_matrix w.
Proof.
  unfold erase_matrix, normal_; simpl. f_equal.
  apply (erase_normal_rows (fun i j => (mean + std * noise i j)%R)).
Qed.

Lemma normal_erased (mean std : R) (noise : nat -> nat -> R) (w w' : Matrix) :
  erase_matrix w = erase_matrix w' ->
  normal_ mean std noise w = normal_ mean std noise w'.
Proof.
  unfold erase_matrix, normal_. intros [= Hc Hr]. rewrite Hc. f_equal.
  apply (normal_rows_erased (fun i j => (mean + std * noise i j)%R)), Hr.
Qed.

Lemma zero_fill (v : R) (x : Vec) : zero_ (fill_ v x) = zero_ x.
Proof. apply fill_length, length_fill. Qed.

Lemma zero_zero (x : Vec) : zero_ (zero_ x) = zero_ x.
Proof. unfold zero_. apply fill_length, length_fill. Qed.

(** X13. [_init_weights] overwrites values and nothing else: the class of a
    module, its sizes, the shape of every parameter and whether a linear
    layer has a bias are as before (a bias-free projection stays
    bias-free); dropout layers and containers are returned as they are. *)
Theorem X13_init_weights_keeps_shapes (initializer_range : R)
    (noise : nat -> nat -> R) (module : Submodule) :
  erase_values (_init_weights initializer_range noise module) = erase_values module
  /\ (forall l l', module = SubLinear l ->
        _init_weights initializer_range noise module = SubLinear l' ->
        (bias l = None <-> bias l' = None))
  /\ (forall p, _init_weights initializer_range noise (SubDropout p) = SubDropout p)
  /\ _init_weights initializer_range noise SubContainer = SubContainer.
Proof.
  split; [|split; [|split]].
  - destruct module as [l|w|w b|p|]; try reflexivity.
    + unfold _init_weights. destruct l as [i o W [b|]]; simpl;
        rewrite erase_normal; [rewrite zero_zero|]; reflexivity.
    + simpl. rewrite erase_normal. reflexivity.
    + simpl. rewrite zero_fill, zero_zero. reflexivity.
  - intros l l' -> Hinit. unfold _init_weights in Hinit. simpl in Hinit.
    destruct (bias l) as [b|]; injection Hinit as <-; simpl;
      split; congruence.
  - intros p. reflexivity.
  - reflexivity.
Qed.

Lemma init_weights_erased (initializer_range : R) (noise : nat -> nat -> R)
    (m m' : Submodule) :
  erase_values m = erase_values m' ->
  _init_weights initializer_range noise m = _init_weights initializer_range noise m'.
Proof.
  destruct m as [[i o W b]|w|w b|p|], m' as [[i' o' W' b']|w'|w' b'|p'|];
    unfold erase_values; intros H; try discriminate;
    [| | |congruence|reflexivity].
  - injection H as -> -> Hc Hr Hb.
    assert (HW : erase_matrix W = erase_matrix W')
      by (unfold erase_matrix; rewrite Hc, Hr; reflexivity).
    unfold _init_weights; simpl.
    rewrite (normal_erased _ _ _ W W' HW).
    destruct b as [b|], b' as [b'|]; simpl in Hb; try discriminate;
      [|reflexivity].
    injection Hb as Hb. rewrite Hb. reflexivity.
  - injection H as Hc Hr.
    assert (HW : erase_matrix w = erase_matrix w')
      by (unfold erase_matrix; rewrite Hc, Hr; reflexivity).
    unfold _init_weights. rewrite (normal_erased _ _ _ w w' HW). reflexivity.
  - injection H as Hw Hb. unfold _init_weights.
    rewrite (fill_length 1 w w') by (apply zero_eq_length, Hw).
    rewrite Hb. reflexivity.
Qed.

(** X14. Initialisation forgets what was there: the result depends on the
    class and the shapes of a module only, so initialising a module that an
    earlier call (with any range and any draws) has initialised gives what
    initialising the original module gives. *)
Theorem X14_init_weights_overwrites (sigma sigma' : R)
    (noise noise' : nat -> nat -> R) (module : Submodule) :
  _init_weights sigma noise (_init_weights sigma' noise' module)
  = _init_weights sigma noise module.
Proof.
  apply init_weights_erased.
  destruct module as [l|w|w b|p|]; try reflexivity.
  - unfold _init_weights. destruct l as [i o W [b|]]; simpl;
      rewrite erase_normal; [rewrite zero_zero|]; reflexivity.
  - simpl. rewrite erase_normal. reflexivity.
  - simpl. rewrite zero_fill, zero_zero. reflexivity.
Qed.

(** ** Index alignment *)

(** X15. Pairing is by row index: for two one-dimensional pairs with the
    same embedding [a] resp. [b] on both sides, exchanging the two queries
    alone (the documents staying in place) raises the loss by
    [(a - b)^2 / 2]; the loss is therefore not invariant under a permutation
    of one side only. *)
Theorem X15_permuting_one_side_changes_the_loss (a b : R) :
  let Q := {| ncols := 1; rows := [[a]; [b]] |} in
  exists v,
    score Q Q = Ok v
    /\ score (permute_rows [1; 0] Q) Q = Ok (v + (a - b) * (a - b) / 2)%R.
Proof.
  intros Q.
  assert (HQ : has_shape Q 2 1)
    by (split; [reflexivity|split; [reflexivity|repeat constructor]]).
  assert (HQ' : has_shape (permute_rows [1; 0] Q) 2 1)
    by (split; [reflexivity|split; [reflexivity|repeat constructor]]).
  rewrite (score_pairs Q Q 2 1 HQ HQ).
  rewrite (score_pairs _ Q 2 1 HQ' HQ).
  eexists. split; [reflexivity|]. f_equal.
  unfold pair_loss, dot; simpl. rewrite !Rsum_cons, !Rsum_nil.
  replace (b * a + 0)%R with (a * b + 0)%R by lra.
  replace (exp (a * b + 0) + (exp (a * a + 0) + 0))%R
    with (exp (a * a + 0) + (exp (a * b + 0) + 0))%R by lra.
  replace (exp (b * b + 0) + (exp (a * b + 0) + 0))%R
    with (exp (a * b + 0) + (exp (b * b + 0) + 0))%R by lra.
  set (L1 := ln (exp (a * a + 0) + (exp (a * b + 0) + 0))%R).
  set (L2 := ln (exp (a * b + 0) + (exp (b * b + 0) + 0))%R).
  lra.
Qed.

(** ** The two roles under sharing *)

(** X16. With shared encoders the two roles differ by their projection
    only: when the two projection weights are equal, [embed_questions] and
    [embed_answers] of a constructed model coincide on every input, calls
    and result alike. *)
Theorem X16_shared_roles_differ_by_projection_only
    (config : RetriBertConfig) (w : InitialWeights) (h0 : Heap)
    (ids : list (list Z)) (mask : list (list R)) (c : Z) :
  share_encoders config = true ->
  init_project_query w = init_project_doc w ->
  let self := (RetriBertModel_init config w h0).1 in
  let h := (RetriBertModel_init config w h0).2 in
  embed_answers self h ids mask c = embed_questions self h ids mask c.
Proof.
  intros Hshare Hw self h.
  pose proof (init_linked config w h0) as Hl. fold self h in Hl.
  rewrite (embed_answers_linked config w self h ids mask c Hl).
  rewrite (embed_questions_linked config w self h ids mask c Hl).
  rewrite Hshare, Hw. reflexivity.
Qed.

Lemma X16_witness :
  let w := {| init_bert_query := toy_weights;
              init_bert_doc := toy_weights';
              init_project_query := [[2%R]];
              init_project_doc := [[2%R]] |} in
  let self := (RetriBertModel_init (toy_config true) w []).1 in
  let h := (RetriBertModel_init (toy_config true) w []).2 in
  embed_answers self h toy_ids toy_mask 2 = embed_questions self h toy_ids toy_mask 2.
Proof.
  apply (X16_shared_roles_differ_by_projection_only (toy_config true)
           {| init_bert_query := toy_weights;
              init_bert_doc := toy_weights';
              init_project_query := [[2%R]];
              init_project_doc := [[2%R]] |} [] toy_ids toy_mask 2);
    reflexivity.
Defined.
